(** * Sensor calibration tool: a shallow embedding of [src/main.cpp]

    The program is an interactive menu loop around one global record,
    [current_calibration].  It reads characters from [cin], writes to
    [cout], and reads or writes one small text file.  The embedding threads
    an explicit [World] (calibration store, [cin], [cout] log, file system)
    through every function of the source; [double] is IEEE binary64
    ([PrimFloat.float]), [int] is a 32-bit integer held in [Z].

    The C++ stream operations the source calls ([operator>>], [ignore],
    [get], [getline], and the fixed-point rendering of a [double]) are
    modelled once, at the level of characters, in the modules [Chars],
    [IStream], [Decimal] and [OStream]. *)

From Stdlib Require Import ZArith QArith Qabs Floats String Ascii List Lia.
From stdpp Require Import gmap strings list.

#[local] Set Warnings "-inexact-float".
#[local] Open Scope Z_scope.

(* ===================================================================== *)
(** ** Characters ("C" locale)                                            *)
(* ===================================================================== *)

Module Chars.

Definition code (c : ascii) : Z := Z.of_N (N_of_ascii c).

Definition nl : ascii := ascii_of_N 10.

(** [isspace]: space, and the controls \t \n \v \f \r. *)
Definition isspace (c : ascii) : bool :=
  (code c =? 32) || ((9 <=? code c) && (code c <=? 13)).

Definition isdigit (c : ascii) : bool :=
  (48 <=? code c) && (code c <=? 57).

Definition digit_val (c : ascii) : Z := code c - 48.

Definition digit_char (d : Z) : ascii := ascii_of_N (Z.to_N (d + 48)).

(** Value of a string of decimal digits, most significant first. *)
Definition digits_val (ds : list ascii) : Z :=
  fold_left (fun acc c => 10 * acc + digit_val c) ds 0.

(** Longest prefix of digits, and what follows it. *)
Fixpoint span_digits (l : list ascii) : list ascii * list ascii :=
  match l with
  | c :: r =>
      if isdigit c then let '(ds, rest) := span_digits r in (c :: ds, rest)
      else ([], l)
  | [] => ([], [])
  end.

Fixpoint skipws (l : list ascii) : list ascii :=
  match l with
  | c :: r => if isspace c then skipws r else l
  | [] => []
  end.

(** An optional leading sign: [(is_minus, rest)]. *)
Definition take_sign (l : list ascii) : bool * list ascii :=
  match l with
  | c :: r =>
      if Ascii.eqb c "-" then (true, r)
      else if Ascii.eqb c "+" then (false, r)
      else (false, l)
  | [] => (false, [])
  end.

Definition is_nil {A} (l : list A) : bool :=
  match l with [] => true | _ => false end.

(** Text of several input lines, each terminated by a newline. *)
Definition lines (ls : list string) : list ascii :=
  flat_map (fun s => list_ascii_of_string s ++ [nl]) ls.

End Chars.
Import Chars.

(* ===================================================================== *)
(** ** Decimal text and binary64                                          *)
(* ===================================================================== *)

Module Decimal.

(** Round the non-negative rational [num/den] to an integer, ties to even. *)
Definition round_half_even (num den : Z) : Z :=
  let q := num / den in
  let r := num mod den in
  match 2 * r ?= den with
  | Lt => q
  | Gt => q + 1
  | Eq => if Z.even q then q else q + 1
  end.

(** [scale num den e] is the fraction [(num/den) / 2^e]. *)
Definition scale (num den e : Z) : Z * Z :=
  if 0 <=? e then (num, den * 2 ^ e) else (num * 2 ^ (- e), den).

(** [floor (log2 (num/den))] for [num, den > 0]. *)
Definition ilog2 (num den : Z) : Z :=
  let l := Z.log2 num - Z.log2 den in
  let '(n, d) := scale num den l in
  if d <=? n then l else l - 1.

Definition exp_min : Z := -1074.
Definition exp_max : Z := 971.

(** The binary64 value nearest to [num/den] ([num >= 0], [den > 0]), ties
    to even, as a [spec_float]: what [strtod] returns for a decimal
    numeral.  Values beyond the largest finite double give infinity
    ([HUGE_VAL]). *)
Definition nearest_binary64 (neg : bool) (num den : Z) : spec_float :=
  if num =? 0 then S754_zero neg
  else
    let e := Z.max (ilog2 num den - 52) exp_min in
    let '(n, d) := scale num den e in
    let m := round_half_even n d in
    let '(m, e) := if m =? 2 ^ 53 then (2 ^ 52, e + 1) else (m, e) in
    if m =? 0 then S754_zero neg
    else if exp_max <? e then S754_infinity neg
    else S754_finite neg (Z.to_pos m) e.

(** The numeral [±M × 10^E]. *)
Definition decimal_to_binary64 (neg : bool) (M E : Z) : spec_float :=
  if 0 <=? E then nearest_binary64 neg (M * 10 ^ E) 1
  else nearest_binary64 neg M (10 ^ (- E)).

(** [strtod] on the text accumulated by [num_get]: an optional sign, digits
    with an optional decimal point, an optional exponent.  The whole text
    must be consumed and there must be at least one mantissa digit,
    otherwise the conversion fails ([None]). *)
Definition strtod (x : list ascii) : option spec_float :=
  let '(neg, x1) := take_sign x in
  let '(ip, x2) := span_digits x1 in
  let '(fp, x3) :=
    match x2 with
    | c :: r => if Ascii.eqb c "." then span_digits r else ([], x2)
    | [] => ([], [])
    end in
  if is_nil ip && is_nil fp then None
  else
    let M := digits_val (ip ++ fp) in
    let F := Z.of_nat (length fp) in
    match x3 with
    | [] => Some (decimal_to_binary64 neg M (- F))
    | c :: r =>
        if Ascii.eqb c "e" || Ascii.eqb c "E" then
          let '(eneg, r1) := take_sign r in
          let '(ed, r2) := span_digits r1 in
          if is_nil ed || negb (is_nil r2) then None
          else
            let E := if eneg then - digits_val ed else digits_val ed in
            Some (decimal_to_binary64 neg M (E - F))
        else None
    end.

(** Decimal digits of a non-negative integer, most significant first;
    [fuel] bounds the number of digits. *)
Fixpoint digits_of (fuel : nat) (n : Z) (acc : list ascii) : list ascii :=
  match fuel with
  | O => acc
  | S f =>
      let acc' := digit_char (n mod 10) :: acc in
      if n <? 10 then acc' else digits_of f (n / 10) acc'
  end.

Definition decimal_of (n : Z) : list ascii :=
  digits_of (S (Z.to_nat (Z.log2 n))) n [].

(** Exactly [k] digits of [n], zero padded on the left. *)
Fixpoint padded_digits (k : nat) (n : Z) (acc : list ascii) : list ascii :=
  match k with
  | O => acc
  | S k' => padded_digits k' (n / 10) (digit_char (n mod 10) :: acc)
  end.

(** [os << fixed << setprecision(p) << x]: fixed-point notation with [p]
    digits after the decimal point, the exact value rounded to nearest. *)
Definition format_fixed (p : nat) (x : spec_float) : list ascii :=
  let sign (s : bool) := if s then ["-"%char] else [] in
  let body (N : Z) :=
    decimal_of (N / 10 ^ Z.of_nat p) ++ ["."%char]
      ++ padded_digits p (N mod 10 ^ Z.of_nat p) [] in
  match x with
  | S754_nan => list_ascii_of_string "nan"
  | S754_infinity s => sign s ++ list_ascii_of_string "inf"
  | S754_zero s => sign s ++ body 0
  | S754_finite s m e =>
      let '(n, d) := scale (Z.pos m * 10 ^ Z.of_nat p) 1 (- e) in
      sign s ++ body (round_half_even n d)
  end.

End Decimal.
Import Decimal.

(* ===================================================================== *)
(** ** Input streams ([std::istream])                                     *)
(* ===================================================================== *)

Module IStream.

(** The characters not yet read and the two state flags the program can
    observe; end of input is the end of [buf]. *)
Record istream := mkIn { buf : list ascii; eofbit : bool; failbit : bool }.

Definition open (text : list ascii) : istream := mkIn text false false.

Definition good (s : istream) : bool := negb (eofbit s) && negb (failbit s).

(** [s.clear()] *)
Definition clear (s : istream) : istream := mkIn (buf s) false false.

(** [istream::sentry].  A stream that is not good gets [failbit] and the
    operation is abandoned.  With [skip] (formatted input) leading white
    space is discarded first and reaching the end of input there sets
    [eofbit] and [failbit]. *)
Definition sentry (skip : bool) (s : istream) : bool * istream :=
  if good s then
    if skip then
      match skipws (buf s) with
      | [] => (false, mkIn [] true true)
      | b => (true, mkIn b false false)
      end
    else (true, s)
  else (false, mkIn (buf s) (eofbit s) true).

(** [s >> n] for [int n]: an optional sign and decimal digits.  No digit,
    or a value outside the range of [int], sets [failbit]; running into
    the end of input while reading sets [eofbit]. *)
Definition INT_MIN : Z := - 2 ^ 31.
Definition INT_MAX : Z := 2 ^ 31 - 1.

Definition extract_int (s : istream) : option Z * istream :=
  match sentry true s with
  | (false, s') => (None, s')
  | (true, s') =>
      let '(neg, b1) := take_sign (buf s') in
      let '(ds, b2) := span_digits b1 in
      let v := if neg then - digits_val ds else digits_val ds in
      if negb (is_nil ds) && (INT_MIN <=? v) && (v <=? INT_MAX)
      then (Some v, mkIn b2 (is_nil b2) false)
      else (None, mkIn b2 (is_nil b2) true)
  end.

(** [s >> c] for [char c]: the first character after white space. *)
Definition extract_char (s : istream) : option ascii * istream :=
  match sentry true s with
  | (false, s') => (None, s')
  | (true, s') =>
      match buf s' with
      | c :: r => (Some c, mkIn r false false)
      | [] => (None, mkIn [] true true)
      end
  end.

(** Stage 2 of [num_get] for floating point (libstdc++, "C" locale):
    the characters taken from the stream and the text handed to [strtod].
    Leading zeros collapse into one; a decimal point is taken once and only
    before the exponent; an exponent letter is taken once, after a digit,
    together with a sign that follows it. *)
Fixpoint leading_zeros (found : bool) (l : list ascii)
  : bool * list ascii :=
  match l with
  | c :: r => if Ascii.eqb c "0" then leading_zeros true r else (found, l)
  | [] => (found, [])
  end.

Fixpoint float_chars (mant dec sci : bool) (l : list ascii)
  : list ascii * list ascii :=
  match l with
  | [] => ([], [])
  | c :: r =>
      if isdigit c then
        let '(x, rest) := float_chars true dec sci r in (c :: x, rest)
      else if Ascii.eqb c "." && negb dec && negb sci then
        let '(x, rest) := float_chars mant true sci r in (c :: x, rest)
      else if (Ascii.eqb c "e" || Ascii.eqb c "E") && negb sci && mant then
        match r with
        | [] => (["e"%char], [])
        | c' :: r' =>
            if Ascii.eqb c' "+" || Ascii.eqb c' "-" then
              let '(x, rest) := float_chars mant dec true r' in
              ("e"%char :: c' :: x, rest)
            else
              let '(x, rest) := float_chars mant dec true r in
              ("e"%char :: x, rest)
        end
      else ([], l)
  end.

Definition accumulate_float (l : list ascii) : list ascii * list ascii :=
  let '(sgn, l1) :=
    match l with
    | c :: r =>
        if Ascii.eqb c "+" || Ascii.eqb c "-" then ([c], r) else ([], l)
    | [] => ([], [])
    end in
  let '(z, l2) := leading_zeros false l1 in
  let '(x, l3) := float_chars z false false l2 in
  (sgn ++ (if z then ["0"%char] else []) ++ x, l3).

(** [s >> x] for [double x].  The conversion fails when [strtod] does not
    accept the accumulated text or returns [HUGE_VAL]. *)
Definition extract_double (s : istream) : option float * istream :=
  match sentry true s with
  | (false, s') => (None, s')
  | (true, s') =>
      let '(x, rest) := accumulate_float (buf s') in
      match strtod x with
      | Some (S754_infinity _) | None => (None, mkIn rest (is_nil rest) true)
      | Some v => (Some (SF2Prim v), mkIn rest (is_nil rest) false)
      end
  end.

(** [s.ignore(numeric_limits<streamsize>::max(), '\n')]: discard up to and
    including the next newline; the end of input sets [eofbit]. *)
Fixpoint drop_line (l : list ascii) : option (list ascii) :=
  match l with
  | [] => None
  | c :: r => if Ascii.eqb c nl then Some r else drop_line r
  end.

Definition ignore_line (s : istream) : istream :=
  match sentry false s with
  | (false, s') => s'
  | (true, s') =>
      match drop_line (buf s') with
      | Some r => mkIn r false false
      | None => mkIn [] true false
      end
  end.

(** [s.get()]: one character; at the end of input [eofbit] and
    [failbit]. *)
Definition get (s : istream) : option ascii * istream :=
  match sentry false s with
  | (false, s') => (None, s')
  | (true, s') =>
      match buf s' with
      | c :: r => (Some c, mkIn r false false)
      | [] => (None, mkIn [] true true)
      end
  end.

(** [getline(s, str)]: the characters before the next newline, which is
    read and dropped.  At the end of input [eofbit] is set, and [failbit]
    too when nothing was read.  When the sentry fails [str] is not
    touched. *)
Fixpoint take_line (l : list ascii) : list ascii * option (list ascii) :=
  match l with
  | [] => ([], None)
  | c :: r =>
      if Ascii.eqb c nl then ([], Some r)
      else let '(ln, rest) := take_line r in (c :: ln, rest)
  end.

Definition getline (s : istream) (str : string) : string * istream :=
  match sentry false s with
  | (false, s') => (str, s')
  | (true, s') =>
      match take_line (buf s') with
      | (ln, Some r) => (string_of_list_ascii ln, mkIn r false false)
      | (ln, None) => (string_of_list_ascii ln, mkIn [] true (is_nil ln))
      end
  end.

End IStream.
Import IStream.

(* ===================================================================== *)
(** ** The program state                                                  *)
(* ===================================================================== *)

(** [struct Calibration]; [Calibration()] is [initial_calibration]. *)
Record Calibration := mkCal { slope : float; offset : float; is_valid : bool }.

Definition initial_calibration : Calibration := mkCal 0%float 0%float false.

(** What is inserted into [cout], in order.  Numbers are kept as values;
    [fixed] and [setprecision] are recorded as they are inserted.  String
    literals are kept as the source spells them, escapes included. *)
Inductive out_item :=
| OStr (s : string)
| OInt (n : Z)
| ODouble (x : float)
| OFixed
| OSetPrecision (p : Z).

(** The regular files that can be opened for reading, with their text, and
    the paths that cannot be opened for writing.  The empty path never
    opens. *)
Record FileSystem := mkFS {
  fs_files : gmap string (list ascii);
  fs_denied : gset string
}.

Definition open_read (fs : FileSystem) (name : string) : option (list ascii) :=
  if String.eqb name "" then None else fs_files fs !! name.

Definition can_create (fs : FileSystem) (name : string) : bool :=
  negb (String.eqb name "") && bool_decide (name ∉ fs_denied fs).

Definition write_file (fs : FileSystem) (name : string) (text : list ascii)
  : FileSystem :=
  mkFS (<[name := text]> (fs_files fs)) (fs_denied fs).

(** [stack_char] is the indeterminate value of the local [continue_choice]
    of [convert_raw_reading] at its declaration: the source tests it when
    the very first [cin >> continue_choice] fails. *)
Record World := mkWorld {
  current_calibration : Calibration;
  cin : istream;
  cout : list out_item;
  fs : FileSystem;
  stack_char : ascii
}.

(** How a command returned: by its last statement, or early on one of the
    error paths of the source. *)
Inductive Error :=
| DegenerateInputError
| FileOpenError
| ParseError (field : string)
| NotCalibratedError
| NoCalibrationError
| FileWriteError.

Inductive Outcome := Success | Failure (e : Error).

(* ===================================================================== *)
(** ** A state monad with a step budget                                   *)
(* ===================================================================== *)

(** The source has unbounded loops ([while (true)] around every prompt and
    around the menu).  A loop of the embedding takes a budget of
    iterations; a run that uses it up stops with [Timeout] and the state
    reached so far. *)
Inductive Res (A : Type) :=
| Done (a : A) (w : World)
| Timeout (w : World).
Arguments Done {A} a w.
Arguments Timeout {A} w.

Definition M (A : Type) : Type := World -> Res A.

Definition ret {A} (a : A) : M A := fun w => Done a w.

Definition bind {A B} (m : M A) (k : A -> M B) : M B :=
  fun w => match m w with
           | Done a w' => k a w'
           | Timeout w' => Timeout w'
           end.

Definition timeout {A} : M A := fun w => Timeout w.

Declare Scope prog_scope.
Delimit Scope prog_scope with prog.
Notation "x <- m ;; k" := (bind m (fun x => k))
  (at level 20, m at level 99, k at level 200, only parsing) : prog_scope.
Notation "m ;; k" := (bind m (fun _ => k))
  (at level 100, k at level 200, right associativity, only parsing)
  : prog_scope.
#[local] Open Scope prog_scope.

Definition final_world {A} (r : Res A) : World :=
  match r with Done _ w | Timeout w => w end.

(** [cout << x] *)
Definition put (x : out_item) : M unit :=
  fun w => Done tt (mkWorld (current_calibration w) (cin w) (cout w ++ [x])
                            (fs w) (stack_char w)).

Definition puts (s : string) : M unit := put (OStr s).

(** An operation on [cin]. *)
Definition on_cin {A} (op : istream -> A * istream) : M A :=
  fun w => let '(a, s) := op (cin w) in
           Done a (mkWorld (current_calibration w) s (cout w) (fs w)
                           (stack_char w)).

Definition get_calibration : M Calibration :=
  fun w => Done (current_calibration w) w.

(** An assignment to one field of [current_calibration]. *)
Definition update_calibration (f : Calibration -> Calibration) : M unit :=
  fun w => Done tt (mkWorld (f (current_calibration w)) (cin w) (cout w)
                            (fs w) (stack_char w)).

Definition set_slope (x : float) : M unit :=
  update_calibration (fun c => mkCal x (offset c) (is_valid c)).

Definition set_offset (x : float) : M unit :=
  update_calibration (fun c => mkCal (slope c) x (is_valid c)).

Definition set_is_valid (b : bool) : M unit :=
  update_calibration (fun c => mkCal (slope c) (offset c) b).

Definition get_fs : M FileSystem := fun w => Done (fs w) w.

Definition set_fs (f : FileSystem) : M unit :=
  fun w => Done tt (mkWorld (current_calibration w) (cin w) (cout w) f
                            (stack_char w)).

Definition get_stack_char : M ascii := fun w => Done (stack_char w) w.

(** [for (int i = 0; i < count; i++) body], the loop state passed along. *)
Fixpoint for_loop {S} (count i : nat) (body : nat -> S -> M S) (s : S) : M S :=
  match count with
  | O => ret s
  | Datatypes.S c => s' <- body i s ;; for_loop c (Datatypes.S i) body s'
  end.

(* ===================================================================== *)
(** ** The program                                                        *)
(* ===================================================================== *)

(** [clear_input_buffer] *)
Definition clear_input_buffer : M unit :=
  on_cin (fun s => (tt, ignore_line (clear s))).

(** [pause_screen] *)
Definition pause_screen : M unit :=
  puts "\nPress Enter to continue..." ;;
  _ <- on_cin get ;;
  ret tt.

(** [display_menu] *)
Definition display_menu : M unit :=
  puts "\n--- MAIN MENU ---\n" ;;
  puts "1. Enter new calibration data\n" ;;
  puts "2. Load existing calibration from file\n" ;;
  puts "3. Convert a raw reading\n" ;;
  puts "4. Save current calibration to file\n" ;;
  puts "5. Exit\n" ;;
  puts "\nChoose an option: ".

(** *** [enter_calibration_data] *)

(** The prompt for the number of points (lines 111..119). *)
Fixpoint read_num_points (fuel : nat) : M Z :=
  match fuel with
  | O => timeout
  | S fuel' =>
      puts "Enter number of data points (minimum 2): " ;;
      r <- on_cin extract_int ;;
      match r with
      | Some num_points =>
          if 2 <=? num_points then ret num_points
          else
            puts "Invalid input. Enter an integer >= 2.\n" ;;
            clear_input_buffer ;;
            read_num_points fuel'
      | None =>
          puts "Invalid input. Enter an integer >= 2.\n" ;;
          clear_input_buffer ;;
          read_num_points fuel'
      end
  end.

(** A prompt for one number, repeated until a [double] is read (lines
    132..140, 143..151 and 295..303). *)
Fixpoint read_double (prompt complaint : string) (fuel : nat) : M float :=
  match fuel with
  | O => timeout
  | S fuel' =>
      puts prompt ;;
      r <- on_cin extract_double ;;
      match r with
      | Some x => ret x
      | None =>
          puts complaint ;;
          clear_input_buffer ;;
          read_double prompt complaint fuel'
      end
  end.

(** The body of the loop that collects the points (lines 128..154); the
    loop state is the pair of vectors. *)
Definition collect_point (fuel : nat) (i : nat)
    (vs : list float * list float) : M (list float * list float) :=
  let '(reference_values, raw_readings) := vs in
  puts "\nPoint " ;; put (OInt (Z.of_nat i + 1)) ;; puts ":\n" ;;
  y <- read_double "  Reference value: "
         "  Invalid input. Enter a number.\n" fuel ;;
  x <- read_double "  Raw reading: "
         "  Invalid input. Enter a number.\n" fuel ;;
  clear_input_buffer ;;
  ret (<[i := y]> reference_values, <[i := x]> raw_readings).

(** [v[i]] for an index that is in range. *)
Definition at_index (v : list float) (i : nat) : float :=
  default 0%float (v !! i).

(** The accumulation loop (lines 169..182): [sum_x], [sum_y], [sum_xy],
    [sum_x2] after the points [i .. i + count - 1]. *)
Fixpoint accumulate (count i : nat) (raw_readings reference_values : list float)
    (sums : float * float * float * float) : float * float * float * float :=
  match count with
  | O => sums
  | S c =>
      let '(sum_x, sum_y, sum_xy, sum_x2) := sums in
      let x := at_index raw_readings i in
      let y := at_index reference_values i in
      accumulate c (S i) raw_readings reference_values
        (sum_x + x, sum_y + y, sum_xy + x * y, sum_x2 + x * x)%float
  end.

(** [static_cast<double>(num_points)] *)
Definition double_of_int (n : Z) : float := of_uint63 (Uint63.of_Z n).

(** Lines 205..211. *)
Definition display_results (slope offset : float) : M unit :=
  put OFixed ;; put (OSetPrecision 4) ;;
  puts "\n--- CALIBRATION RESULTS ---\n" ;;
  puts "Slope:  " ;; put (ODouble slope) ;; puts "\n" ;;
  puts "Offset: " ;; put (ODouble offset) ;; puts "\n" ;;
  puts "\nCalibration updated successfully.\n" ;;
  puts "Formula: Real Value = " ;; put (ODouble slope) ;;
  puts " × Raw Reading + " ;; put (ODouble offset) ;; puts "\n".

(** Lines 169..213. *)
Definition fit_and_store (num_points : Z)
    (reference_values raw_readings : list float) : M Outcome :=
  let '(sum_x, sum_y, sum_xy, sum_x2) :=
    accumulate (Z.to_nat num_points) 0 raw_readings reference_values
      (0, 0, 0, 0)%float in
  let n := double_of_int num_points in
  let numerator := (n * sum_xy - sum_x * sum_y)%float in
  let denominator := (n * sum_x2 - sum_x * sum_x)%float in
  if (abs denominator <? 1e-10)%float then
    puts "\nError: All raw readings are identical. Cannot compute calibration.\n" ;;
    pause_screen ;;
    ret (Failure DegenerateInputError)
  else
    let slope := (numerator / denominator)%float in
    let offset := ((sum_y - slope * sum_x) / n)%float in
    set_slope slope ;;
    set_offset offset ;;
    set_is_valid true ;;
    display_results slope offset ;;
    pause_screen ;;
    ret Success.

(** Lines 106..154: the point count and the two vectors. *)
Definition read_points (fuel : nat) : M (Z * (list float * list float)) :=
  puts "\n=== ENTER CALIBRATION DATA ===\n" ;;
  num_points <- read_num_points fuel ;;
  clear_input_buffer ;;
  let size := Z.to_nat num_points in
  vs <- for_loop size 0 (collect_point fuel)
          (replicate size 0%float, replicate size 0%float) ;;
  ret (num_points, vs).

Definition enter_calibration_data (fuel : nat) : M Outcome :=
  p <- read_points fuel ;;
  let '(num_points, (reference_values, raw_readings)) := p in
  fit_and_store num_points reference_values raw_readings.

(** *** [load_calibration_from_file] *)

(** Lines 261..265. *)
Definition display_loaded (slope offset : float) (filename : string) : M unit :=
  put OFixed ;; put (OSetPrecision 4) ;;
  puts "\n--- LOADED CALIBRATION ---\n" ;;
  puts "Slope:  " ;; put (ODouble slope) ;; puts "\n" ;;
  puts "Offset: " ;; put (ODouble offset) ;; puts "\n" ;;
  puts "\nCalibration loaded successfully from '" ;;
  puts filename ;; puts "'\n".

Definition load_calibration_from_file : M Outcome :=
  puts "\n=== LOAD CALIBRATION ===\n" ;;
  puts "Enter filename (e.g., calibration.txt): " ;;
  filename <- on_cin (fun s => getline s "") ;;
  files <- get_fs ;;
  match open_read files filename with
  | None =>
      puts "\nError: Cannot open file '" ;; puts filename ;; puts "'\n" ;;
      puts "Make sure the file exists in the current directory.\n" ;;
      pause_screen ;;
      ret (Failure FileOpenError)
  | Some text =>
      let file := open text in
      match extract_double file with
      | (None, _) =>
          puts "\nError: Cannot read slope from file.\n" ;;
          pause_screen ;;
          ret (Failure (ParseError "slope"))
      | (Some slope, file) =>
          match extract_double file with
          | (None, _) =>
              puts "\nError: Cannot read offset from file.\n" ;;
              pause_screen ;;
              ret (Failure (ParseError "offset"))
          | (Some offset, _) =>
              set_slope slope ;;
              set_offset offset ;;
              set_is_valid true ;;
              display_loaded slope offset filename ;;
              pause_screen ;;
              ret Success
          end
      end
  end.

(** *** [convert_raw_reading] *)

(** Line 308. *)
Definition real_value (c : Calibration) (raw_reading : float) : float :=
  (slope c * raw_reading + offset c)%float.

(** The [do ... while] loop (lines 291..319); [continue_choice] is the
    value the variable holds when the body starts. *)
Fixpoint convert_loop (fuel : nat) (continue_choice : ascii) : M unit :=
  match fuel with
  | O => timeout
  | S fuel' =>
      raw_reading <- read_double "Enter raw sensor reading: "
                       "Invalid input. Enter a number.\n" fuel ;;
      clear_input_buffer ;;
      c <- get_calibration ;;
      let real_value := real_value c raw_reading in
      puts "\nRaw Reading: " ;; put (ODouble raw_reading) ;; puts "\n" ;;
      puts "Real Value:  " ;; put (ODouble real_value) ;; puts "\n\n" ;;
      puts "Convert another reading? (y/n): " ;;
      r <- on_cin extract_char ;;
      let continue_choice := default continue_choice r in
      clear_input_buffer ;;
      puts "\n" ;;
      if Ascii.eqb continue_choice "y" || Ascii.eqb continue_choice "Y"
      then convert_loop fuel' continue_choice
      else ret tt
  end.

Definition convert_raw_reading (fuel : nat) : M Outcome :=
  puts "\n=== CONVERT RAW READING ===\n" ;;
  c <- get_calibration ;;
  if negb (is_valid c) then
    puts "\nNo calibration loaded.\n" ;;
    puts "Please enter calibration data (option 1) or load from file (option 2) first.\n" ;;
    pause_screen ;;
    ret (Failure NotCalibratedError)
  else
    put OFixed ;; put (OSetPrecision 4) ;;
    puts "Current calibration: Slope = " ;; put (ODouble (slope c)) ;;
    puts ", Offset = " ;; put (ODouble (offset c)) ;; puts "\n\n" ;;
    continue_choice <- get_stack_char ;;
    convert_loop fuel continue_choice ;;
    ret Success.

(** *** [save_calibration_to_file] *)

(** Lines 350..352: what is written to the file. *)
Definition saved_text (c : Calibration) : list ascii :=
  format_fixed 10 (Prim2SF (slope c)) ++ [nl]
    ++ format_fixed 10 (Prim2SF (offset c)) ++ [nl].

Definition save_calibration_to_file : M Outcome :=
  puts "\n=== SAVE CALIBRATION ===\n" ;;
  c <- get_calibration ;;
  if negb (is_valid c) then
    puts "\nNo calibration to save.\n" ;;
    puts "Please enter calibration data (option 1) or load from file (option 2) first.\n" ;;
    pause_screen ;;
    ret (Failure NoCalibrationError)
  else
    puts "Enter filename to save (e.g., calibration.txt): " ;;
    filename <- on_cin (fun s => getline s "") ;;
    files <- get_fs ;;
    if negb (can_create files filename) then
      puts "\nError: Cannot create file '" ;; puts filename ;; puts "'\n" ;;
      pause_screen ;;
      ret (Failure FileWriteError)
    else
      set_fs (write_file files filename (saved_text c)) ;;
      puts "\nCalibration saved successfully to '" ;;
      puts filename ;; puts "'\n" ;;
      puts "Slope:  " ;; put (ODouble (slope c)) ;; puts "\n" ;;
      puts "Offset: " ;; put (ODouble (offset c)) ;; puts "\n" ;;
      pause_screen ;;
      ret Success.

(** *** [main] *)

(** What one turn of the menu loop did. *)
Inductive Turn :=
| BadInput                       (* [cin >> choice] failed *)
| BadOption (choice : Z)         (* the [default] branch *)
| Ran (choice : Z) (o : Outcome) (* one of the commands 1..4 *)
| Exit (code : Z).               (* [return 0] *)

(** The [switch] (lines 63..82). *)
Definition dispatch (fuel : nat) (choice : Z) : M Turn :=
  match choice with
  | 1 => o <- enter_calibration_data fuel ;; ret (Ran 1 o)
  | 2 => o <- load_calibration_from_file ;; ret (Ran 2 o)
  | 3 => o <- convert_raw_reading fuel ;; ret (Ran 3 o)
  | 4 => o <- save_calibration_to_file ;; ret (Ran 4 o)
  | 5 => puts "\nExiting program. Goodbye!\n" ;; ret (Exit 0)
  | _ =>
      puts "\nInvalid option. Choose between 1 and 5.\n" ;;
      pause_screen ;;
      ret (BadOption choice)
  end.

(** The body of [while (true)] in [main] (lines 51..82). *)
Definition menu_turn (fuel : nat) : M Turn :=
  display_menu ;;
  r <- on_cin extract_int ;;
  match r with
  | None =>
      puts "\nInvalid input. Enter a number between 1 and 5.\n" ;;
      clear_input_buffer ;;
      pause_screen ;;
      ret BadInput
  | Some choice =>
      clear_input_buffer ;;
      dispatch fuel choice
  end.

(** The menu loop; the result is the exit code. *)
Fixpoint menu_loop (fuel turns : nat) : M Z :=
  match turns with
  | O => timeout
  | S turns' =>
      t <- menu_turn fuel ;;
      match t with
      | Exit code => ret code
      | _ => menu_loop fuel turns'
      end
  end.

Definition banner : M unit :=
  puts "\n========================================\n" ;;
  puts "    SENSOR CALIBRATION TOOL\n" ;;
  puts "========================================\n\n".

Definition main (fuel : nat) : M Z :=
  banner ;; menu_loop fuel fuel.

(** The state in which [main] starts: the global constructed, nothing
    printed, [input] waiting on [cin]. *)
Definition initial_world (input : list ascii) (files : FileSystem)
    (junk : ascii) : World :=
  mkWorld initial_calibration (open input) [] files junk.

(* ===================================================================== *)
(** ** The regression as the specification words it                       *)
(* ===================================================================== *)

(** Sums over the points, taken in one pass from the first point on. *)
Module Spec.

Definition sum_with (f : float -> float -> float)
    (raw reference : list float) : float :=
  fold_left (fun acc p => (acc + f (fst p) (snd p))%float)
            (zip raw reference) 0%float.

Definition sum_x := sum_with (fun x _ => x).
Definition sum_y := sum_with (fun _ y => y).
Definition sum_xy := sum_with (fun x y => (x * y)%float).
Definition sum_x2 := sum_with (fun x _ => (x * x)%float).

(** The number of points as a floating count. *)
Definition count (raw : list float) : float :=
  double_of_int (Z.of_nat (length raw)).

Definition denom (raw reference : list float) : float :=
  (count raw * sum_x2 raw reference
   - sum_x raw reference * sum_x raw reference)%float.

Definition slope (raw reference : list float) : float :=
  ((count raw * sum_xy raw reference
    - sum_x raw reference * sum_y raw reference)
   / denom raw reference)%float.

Definition offset (raw reference : list float) : float :=
  ((sum_y raw reference - slope raw reference * sum_x raw reference)
   / count raw)%float.

End Spec.

(* ===================================================================== *)
(** ** Predicates on computations and runs                                *)
(* ===================================================================== *)

(** [m] relates every start state to the state in which it ends or runs
    out of budget. *)
Definition ensures (R : relation World) {A} (m : M A) : Prop :=
  forall w, R w (final_world (m w)).

(** The part [proj] of the state is the same. *)
Definition same {X} (proj : World -> X) : relation World :=
  fun w w' => proj w' = proj w.

(** Nothing printed is taken back. *)
Definition more_output : relation World :=
  fun w w' => cout w `prefix_of` cout w'.

Abbreviation preserves proj := (ensures (same proj)).

(** Neither the store nor the files are touched. *)
Definition untouched : relation World :=
  fun w w' => same current_calibration w w' /\ same fs w w'.

(** [m] needs no budget: from every state it ends, with a result in [Q]. *)
Definition finishes {A} (m : M A) (Q : A -> Prop) : Prop :=
  forall w, exists a w', m w = Done a w' /\ Q a.

(** A [double] that is neither infinite nor NaN. *)
Definition finite (x : float) : bool :=
  match Prim2SF x with
  | S754_zero _ | S754_finite _ _ _ => true
  | S754_infinity _ | S754_nan => false
  end.

(** The integer [N] such that [fixed] with 10 decimals prints the
    magnitude of a finite [x] as [N / 10^10]. *)
Definition fixed_units (x : spec_float) : Z :=
  match x with
  | S754_finite _ m e =>
      let '(n, d) := scale (Z.pos m * 10 ^ 10) 1 (- e) in round_half_even n d
  | _ => 0
  end.

Definition sign_of (x : spec_float) : bool :=
  match x with
  | S754_zero s | S754_infinity s | S754_finite s _ _ => s
  | S754_nan => false
  end.

(** The value of a finite binary64 number, exactly: [units] counts it in
    units of [2^-1074], of which every double is a whole multiple. *)
Definition units (x : spec_float) : Z :=
  match x with
  | S754_finite s m e => (if s then -1 else 1) * (Z.pos m * 2 ^ (e + 1074))
  | _ => 0
  end.

Definition unit_den : positive := Z.to_pos (2 ^ 1074).

Definition value (x : float) : Q := units (Prim2SF x) # unit_den.

(** One unit in the tenth decimal place. *)
Definition tenth_decimal : Q := 1 # 10000000000.


(** No input is left. *)
Definition exhausted (s : istream) : Prop := buf s = [].

(** Once the input is used up it stays used up. *)
Definition stays_exhausted : relation World :=
  fun w w' => exhausted (cin w) -> exhausted (cin w').

(** What [cin >> choice] at the top of the menu loop will read. *)
Definition next_choice (w : World) : option Z := fst (extract_int (cin w)).

(** The file name that [getline(cin, filename)] will deliver. *)
Definition next_line (w : World) : string := (getline (cin w) "").1.

(** The state in which the [switch] is entered: the menu printed, the
    choice read, the rest of its line discarded. *)
Definition menu_items : list out_item :=
  [OStr "\n--- MAIN MENU ---\n"; OStr "1. Enter new calibration data\n";
   OStr "2. Load existing calibration from file\n";
   OStr "3. Convert a raw reading\n";
   OStr "4. Save current calibration to file\n"; OStr "5. Exit\n";
   OStr "\nChoose an option: "].

Definition after_menu (w : World) : World :=
  mkWorld (current_calibration w) (extract_int (cin w)).2
          (cout w ++ menu_items) (fs w) (stack_char w).

Definition at_switch (w : World) : World :=
  final_world (clear_input_buffer (after_menu w)).

(** The record that command 1 writes when it is run in [w] and the guard
    lets it through: the fit of the points it reads. *)
Definition fitted (fuel : nat) (w : World) : option Calibration :=
  match read_points fuel w with
  | Done (_, (refs, raws)) _ =>
      Some (mkCal (Spec.slope raws refs) (Spec.offset raws refs) true)
  | Timeout _ => None
  end.

(** The record that command 2 writes when it is run in [w]: the first two
    numbers of the file named on the next input line. *)
Definition loaded (w : World) : option Calibration :=
  match open_read (fs w) (next_line w) with
  | Some text =>
      match extract_double (open text) with
      | (Some s, file) =>
          match extract_double file with
          | (Some o, _) => Some (mkCal s o true)
          | _ => None
          end
      | _ => None
      end
  | None => None
  end.

(** A turn that changed the store by fitting or loading. *)
Definition sets_calibration (t : Turn) : bool :=
  match t with
  | Ran 1 Success | Ran 2 Success => true
  | _ => false
  end.

Definition is_exit (t : Turn) : bool :=
  match t with Exit _ => true | _ => false end.

(** [session w ts w']: the menu loop, started in [w], is back at the menu
    in [w'] after the turns [ts], none of which was the exit. *)
Inductive session : World -> list Turn -> World -> Prop :=
| session_nil w : session w [] w
| session_turn w fuel t w1 ts w2 :
    menu_turn fuel w = Done t w1 ->
    is_exit t = false ->
    session w1 ts w2 ->
    session w (t :: ts) w2.

(** The state at the first menu prompt. *)
Definition start (input : list ascii) (files : FileSystem) (junk : ascii)
  : World :=
  final_world (banner (initial_world input files junk)).

(** The pairs (raw reading, real value) that a [cout] log reports: every
    occurrence of the five items that lines 310..311 insert. *)
Inductive scan_state :=
| Idle
| SeenRawLabel
| SeenRaw (r : float)
| SeenNewline (r : float)
| SeenRealLabel (r : float).

Definition scan_step (st : scan_state) (x : out_item)
  : scan_state * list (float * float) :=
  match x with
  | OStr s =>
      if String.eqb s "\nRaw Reading: " then (SeenRawLabel, [])
      else
        match st with
        | SeenRaw r => if String.eqb s "\n" then (SeenNewline r, []) else (Idle, [])
        | SeenNewline r =>
            if String.eqb s "Real Value:  " then (SeenRealLabel r, [])
            else (Idle, [])
        | _ => (Idle, [])
        end
  | ODouble v =>
      match st with
      | SeenRawLabel => (SeenRaw v, [])
      | SeenRealLabel r => (Idle, [(r, v)])
      | _ => (Idle, [])
      end
  | _ => (Idle, [])
  end.

Fixpoint scan (st : scan_state) (l : list out_item)
  : scan_state * list (float * float) :=
  match l with
  | [] => (st, [])
  | x :: l' =>
      let '(st1, found) := scan_step st x in
      let '(st2, found') := scan st1 l' in
      (st2, found ++ found')
  end.

Definition reports (l : list out_item) : list (float * float) :=
  snd (scan Idle l).

(** A reported pair is the affine image of its reading under [c]. *)
Definition affine (c : Calibration) (p : float * float) : Prop :=
  p.2 = real_value c p.1.

(** The log of [w] extends that of [w0] by items that leave the scanner in
    state [s] and report only affine images under [c], the store of [w]. *)
Definition log_inv (w0 : World) (c : Calibration) (s : scan_state)
    (w : World) : Prop :=
  current_calibration w = c
  /\ exists out, cout w = cout w0 ++ out
       /\ (scan Idle out).1 = s
       /\ Forall (affine c) (scan Idle out).2.

(** [m], started with the scanner in state [s], keeps [log_inv]; when it
    ends the result and the scanner state are in [post]. *)
Definition scans (w0 : World) (c : Calibration) {A} (s : scan_state)
    (m : M A) (post : A -> scan_state -> Prop) : Prop :=
  forall w, log_inv w0 c s w ->
  match m w with
  | Done a w' => exists s', post a s' /\ log_inv w0 c s' w'
  | Timeout w' => exists s', log_inv w0 c s' w'
  end.

(** What one prompt for a number reads: [prompted s r s'] when, with
    input [s], the loop around [cin >> x] ends with [x = r] and input [s'],
    each failed attempt having discarded the rest of its line. *)
Inductive prompted : istream -> float -> istream -> Prop :=
| prompted_now s r s' :
    extract_double s = (Some r, s') -> prompted s r s'
| prompted_retry s s0 r s' :
    extract_double s = (None, s0) ->
    prompted (ignore_line (clear s0)) r s' ->
    prompted s r s'.

(** The condition of the [do ... while] (line 319). *)
Definition again (continue_choice : ascii) : bool :=
  Ascii.eqb continue_choice "y" || Ascii.eqb continue_choice "Y".

(** What a conversion session reads: [dialogue cc s rs s'] when, entered
    with [continue_choice = cc] and input [s], the loop reads the readings
    [rs], in this order, then an answer that ends it, and leaves the input
    [s'].  An answer that cannot be read leaves [continue_choice] as it
    was. *)
Inductive dialogue : ascii -> istream -> list float -> istream -> Prop :=
| dialogue_last cc s r s1 a s2 :
    prompted s r s1 ->
    extract_char (ignore_line (clear s1)) = (a, s2) ->
    again (default cc a) = false ->
    dialogue cc s [r] (ignore_line (clear s2))
| dialogue_more cc s r s1 a s2 rs s' :
    prompted s r s1 ->
    extract_char (ignore_line (clear s1)) = (a, s2) ->
    again (default cc a) = true ->
    dialogue (default cc a) (ignore_line (clear s2)) rs s' ->
    dialogue cc s (r :: rs) s'.



(** The pair reported for a reading. *)
Definition report (c : Calibration) (raw_reading : float) : float * float :=
  (raw_reading, real_value c raw_reading).

(** The items printed between two states. *)
Definition printed (before after : World) : list out_item :=
  drop (length (cout before)) (cout after).

(** Worlds for the examples: nothing on disk, [input] typed line by line. *)
Definition no_files : FileSystem := mkFS ∅ ∅.

Definition typing (ls : list string) : World :=
  initial_world (lines ls) no_files "n".

Definition with_calibration (c : Calibration) (w : World) : World :=
  mkWorld c (cin w) (cout w) (fs w) (stack_char w).

Definition with_file (name : string) (ls : list string) (w : World) : World :=
  mkWorld (current_calibration w) (cin w) (cout w)
          (write_file (fs w) name (lines ls)) (stack_char w).
(* ===================================================================== *)
(** ** What a computation leaves alone                                    *)
(* ===================================================================== *)

#[global] Arguments saved_text : simpl never.
#[global] Arguments extract_double : simpl never.
#[global] Arguments extract_int : simpl never.
#[global] Arguments extract_char : simpl never.
#[global] Arguments getline : simpl never.
#[global] Arguments get : simpl never.
#[global] Arguments ignore_line : simpl never.
#[global] Arguments can_create : simpl never.
#[global] Arguments open_read : simpl never.
#[global] Arguments write_file : simpl never.

Section Ensures.

Context (R : relation World) `{!PreOrder R}.

Lemma ensures_ret {A} (a : A) : ensures R (ret a).
Proof. intros w. simpl. reflexivity. Qed.

Lemma ensures_timeout {A} : ensures R (@timeout A).
Proof. intros w. simpl. reflexivity. Qed.

Lemma ensures_bind {A B} (m : M A) (k : A -> M B) :
  ensures R m -> (forall a, ensures R (k a)) -> ensures R (bind m k).
Proof.
  intros Hm Hk w. unfold bind. specialize (Hm w).
  destruct (m w) as [a w'|w']; simpl in *.
  - etransitivity; [exact Hm | apply Hk].
  - exact Hm.
Qed.

Lemma ensures_for_loop {S} (body : nat -> S -> M S) :
  (forall i s, ensures R (body i s)) ->
  forall count i s, ensures R (for_loop count i body s).
Proof.
  intros Hb count. induction count as [|c IH]; intros i s; simpl.
  - apply ensures_ret.
  - apply ensures_bind; [apply Hb | intros; apply IH].
Qed.

End Ensures.

#[export] Instance same_preorder {X} (proj : World -> X) : PreOrder (same proj).
Proof.
  split.
  - intros w. reflexivity.
  - intros w1 w2 w3 H12 H23. unfold same in *. congruence.
Qed.

#[export] Instance more_output_preorder : PreOrder more_output.
Proof.
  split.
  - intros w. unfold more_output. reflexivity.
  - intros w1 w2 w3 H12 H23. unfold more_output in *. etransitivity; eauto.
Qed.

Create HintDb frame discriminated.
#[export] Hint Constants Opaque : frame.
#[export] Hint Variables Opaque : frame.

Lemma put_keeps_calibration x : preserves current_calibration (put x).
Proof. intros w. reflexivity. Qed.

Lemma put_keeps_fs x : preserves fs (put x).
Proof. intros w. reflexivity. Qed.

Lemma put_more_output x : ensures more_output (put x).
Proof. intros w. simpl. unfold more_output. simpl. by apply prefix_app_r. Qed.

Lemma on_cin_ensures {A} (op : istream -> A * istream) (R : relation World) :
  (forall w s, R w (mkWorld (current_calibration w) s (cout w) (fs w)
                            (stack_char w))) ->
  ensures R (on_cin op).
Proof. intros H w. unfold on_cin. destruct (op (cin w)). apply H. Qed.

Lemma on_cin_keeps_calibration {A} (op : istream -> A * istream) :
  preserves current_calibration (on_cin op).
Proof. apply on_cin_ensures. reflexivity. Qed.

Lemma on_cin_keeps_fs {A} (op : istream -> A * istream) :
  preserves fs (on_cin op).
Proof. apply on_cin_ensures. reflexivity. Qed.

Lemma on_cin_more_output {A} (op : istream -> A * istream) :
  ensures more_output (on_cin op).
Proof. apply on_cin_ensures. intros w s. unfold more_output. reflexivity. Qed.

Lemma get_calibration_ensures R `{!PreOrder R} : ensures R get_calibration.
Proof. intros w. simpl. reflexivity. Qed.

Lemma get_fs_ensures R `{!PreOrder R} : ensures R get_fs.
Proof. intros w. simpl. reflexivity. Qed.

Lemma get_stack_char_ensures R `{!PreOrder R} : ensures R get_stack_char.
Proof. intros w. simpl. reflexivity. Qed.

Lemma update_calibration_keeps_fs f : preserves fs (update_calibration f).
Proof. intros w. reflexivity. Qed.

Lemma update_calibration_more_output f :
  ensures more_output (update_calibration f).
Proof. intros w. unfold more_output. reflexivity. Qed.

Lemma set_fs_keeps_calibration f : preserves current_calibration (set_fs f).
Proof. intros w. reflexivity. Qed.

Lemma set_fs_more_output f : ensures more_output (set_fs f).
Proof. intros w. unfold more_output. reflexivity. Qed.

#[export] Hint Resolve put_keeps_calibration put_keeps_fs put_more_output
  on_cin_keeps_calibration on_cin_keeps_fs on_cin_more_output
  update_calibration_keeps_fs update_calibration_more_output
  set_fs_keeps_calibration set_fs_more_output : frame.

(** Split a sequence of statements and close each one from the hints. *)
Ltac frame_step :=
  lazymatch goal with
  | |- ensures _ (bind _ _) =>
      apply ensures_bind; [ solve [ typeclasses eauto ] | | intros ? ]
  | |- ensures _ (ret _) => apply ensures_ret; solve [ typeclasses eauto ]
  | |- ensures _ timeout => apply ensures_timeout; solve [ typeclasses eauto ]
  | |- ensures _ get_calibration =>
      apply get_calibration_ensures; solve [ typeclasses eauto ]
  | |- ensures _ get_fs => apply get_fs_ensures; solve [ typeclasses eauto ]
  | |- ensures _ get_stack_char =>
      apply get_stack_char_ensures; solve [ typeclasses eauto ]
  | |- ensures _ (match ?x with _ => _ end) => destruct x
  | |- ensures _ _ => solve [ auto with frame ]
  end.

Ltac frame :=
  unfold puts, set_slope, set_offset, set_is_valid in *;
  repeat frame_step.

Lemma clear_input_buffer_keeps_calibration :
  preserves current_calibration clear_input_buffer.
Proof. unfold clear_input_buffer. frame. Qed.

Lemma clear_input_buffer_keeps_fs : preserves fs clear_input_buffer.
Proof. unfold clear_input_buffer. frame. Qed.

Lemma clear_input_buffer_more_output : ensures more_output clear_input_buffer.
Proof. unfold clear_input_buffer. frame. Qed.

Lemma pause_screen_keeps_calibration :
  preserves current_calibration pause_screen.
Proof. unfold pause_screen. frame. Qed.

Lemma pause_screen_keeps_fs : preserves fs pause_screen.
Proof. unfold pause_screen. frame. Qed.

Lemma pause_screen_more_output : ensures more_output pause_screen.
Proof. unfold pause_screen. frame. Qed.

Lemma display_menu_keeps_calibration :
  preserves current_calibration display_menu.
Proof. unfold display_menu. frame. Qed.

Lemma display_menu_keeps_fs : preserves fs display_menu.
Proof. unfold display_menu. frame. Qed.

Lemma display_menu_more_output : ensures more_output display_menu.
Proof. unfold display_menu. frame. Qed.

#[export] Hint Resolve clear_input_buffer_keeps_calibration
  clear_input_buffer_keeps_fs clear_input_buffer_more_output
  pause_screen_keeps_calibration pause_screen_keeps_fs
  pause_screen_more_output display_menu_keeps_calibration
  display_menu_keeps_fs display_menu_more_output : frame.

Lemma display_results_keeps_calibration s o :
  preserves current_calibration (display_results s o).
Proof. unfold display_results. frame. Qed.

Lemma display_results_keeps_fs s o : preserves fs (display_results s o).
Proof. unfold display_results. frame. Qed.

Lemma display_results_more_output s o :
  ensures more_output (display_results s o).
Proof. unfold display_results. frame. Qed.

Lemma display_loaded_keeps_calibration s o f :
  preserves current_calibration (display_loaded s o f).
Proof. unfold display_loaded. frame. Qed.

Lemma display_loaded_keeps_fs s o f : preserves fs (display_loaded s o f).
Proof. unfold display_loaded. frame. Qed.

Lemma display_loaded_more_output s o f :
  ensures more_output (display_loaded s o f).
Proof. unfold display_loaded. frame. Qed.

#[export] Hint Resolve display_results_keeps_calibration
  display_results_keeps_fs display_results_more_output
  display_loaded_keeps_calibration display_loaded_keeps_fs
  display_loaded_more_output : frame.

Section Loops.

Context (R : relation World) `{!PreOrder R}.
Hypothesis put_ok : forall x, ensures R (put x).
Hypothesis cin_ok : forall A (op : istream -> A * istream), ensures R (on_cin op).

Lemma read_num_points_ensures fuel : ensures R (read_num_points fuel).
Proof.
  induction fuel; simpl; [apply ensures_timeout; done|].
  unfold puts, clear_input_buffer. frame.
Qed.

Lemma read_double_ensures prompt complaint fuel :
  ensures R (read_double prompt complaint fuel).
Proof.
  induction fuel; simpl; [apply ensures_timeout; done|].
  unfold puts, clear_input_buffer. frame.
Qed.

Lemma read_points_ensures fuel : ensures R (read_points fuel).
Proof.
  pose proof read_num_points_ensures. pose proof read_double_ensures.
  unfold read_points, clear_input_buffer. frame.
  apply ensures_for_loop; [done|]. intros i [refs raws].
  unfold collect_point, clear_input_buffer. frame.
Qed.

Lemma convert_loop_ensures fuel c : ensures R (convert_loop fuel c).
Proof.
  pose proof read_double_ensures.
  revert c. induction fuel; intros c; simpl; [apply ensures_timeout; done|].
  unfold clear_input_buffer. frame.
Qed.

Lemma convert_raw_reading_ensures fuel : ensures R (convert_raw_reading fuel).
Proof.
  pose proof convert_loop_ensures.
  unfold convert_raw_reading, pause_screen. frame.
Qed.

End Loops.

Lemma convert_raw_reading_keeps_calibration fuel :
  preserves current_calibration (convert_raw_reading fuel).
Proof. apply convert_raw_reading_ensures; auto with frame typeclass_instances. Qed.

Lemma convert_raw_reading_keeps_fs fuel :
  preserves fs (convert_raw_reading fuel).
Proof. apply convert_raw_reading_ensures; auto with frame typeclass_instances. Qed.

Lemma convert_raw_reading_more_output fuel :
  ensures more_output (convert_raw_reading fuel).
Proof. apply convert_raw_reading_ensures; auto with frame typeclass_instances. Qed.

Lemma read_points_keeps_calibration fuel :
  preserves current_calibration (read_points fuel).
Proof. apply read_points_ensures; auto with frame typeclass_instances. Qed.

Lemma read_points_keeps_fs fuel : preserves fs (read_points fuel).
Proof. apply read_points_ensures; auto with frame typeclass_instances. Qed.

Lemma read_points_more_output fuel : ensures more_output (read_points fuel).
Proof. apply read_points_ensures; auto with frame typeclass_instances. Qed.

#[export] Hint Resolve convert_raw_reading_keeps_calibration
  convert_raw_reading_keeps_fs convert_raw_reading_more_output
  read_points_keeps_calibration read_points_keeps_fs
  read_points_more_output : frame.

Lemma fit_and_store_keeps_fs n refs raws :
  preserves fs (fit_and_store n refs raws).
Proof.
  unfold fit_and_store.
  destruct (accumulate _ _ _ _ _) as [[[sx sy] sxy] sx2]. frame.
Qed.

Lemma fit_and_store_more_output n refs raws :
  ensures more_output (fit_and_store n refs raws).
Proof.
  unfold fit_and_store.
  destruct (accumulate _ _ _ _ _) as [[[sx sy] sxy] sx2]. frame.
Qed.

Lemma enter_calibration_data_keeps_fs fuel :
  preserves fs (enter_calibration_data fuel).
Proof.
  pose proof fit_and_store_keeps_fs.
  unfold enter_calibration_data. apply ensures_bind; [typeclasses eauto| |].
  - auto with frame.
  - intros [n [refs raws]]. auto.
Qed.

Lemma enter_calibration_data_more_output fuel :
  ensures more_output (enter_calibration_data fuel).
Proof.
  pose proof fit_and_store_more_output.
  unfold enter_calibration_data. apply ensures_bind; [typeclasses eauto| |].
  - auto with frame.
  - intros [n [refs raws]]. auto.
Qed.

Lemma load_calibration_from_file_keeps_fs :
  preserves fs load_calibration_from_file.
Proof.
  unfold load_calibration_from_file. frame.
  all: destruct (extract_double _) as [[x|] file]; frame.
  all: destruct (extract_double _) as [[y|] file']; frame.
Qed.

Lemma load_calibration_from_file_more_output :
  ensures more_output load_calibration_from_file.
Proof.
  unfold load_calibration_from_file. frame.
  all: destruct (extract_double _) as [[x|] file]; frame.
  all: destruct (extract_double _) as [[y|] file']; frame.
Qed.

Lemma save_calibration_to_file_keeps_calibration :
  preserves current_calibration save_calibration_to_file.
Proof. unfold save_calibration_to_file. frame. Qed.

Lemma save_calibration_to_file_more_output :
  ensures more_output save_calibration_to_file.
Proof. unfold save_calibration_to_file. frame. Qed.

#[export] Hint Resolve enter_calibration_data_keeps_fs
  enter_calibration_data_more_output load_calibration_from_file_keeps_fs
  load_calibration_from_file_more_output
  save_calibration_to_file_keeps_calibration
  save_calibration_to_file_more_output : frame.

(* ===================================================================== *)
(** ** How the stream operations use up the input                         *)
(* ===================================================================== *)

Lemma skipws_length l : (length (skipws l) <= length l)%nat.
Proof.
  induction l as [|c l IH]; simpl; [lia|].
  destruct (isspace c); simpl; lia.
Qed.

Lemma span_digits_length l ds r :
  span_digits l = (ds, r) -> length l = (length ds + length r)%nat.
Proof.
  revert ds r. induction l as [|c l IH]; intros ds r; simpl.
  - by intros [= <- <-].
  - destruct (isdigit c).
    + destruct (span_digits l) as [ds' r'] eqn:Hspan.
      intros [= <- <-]. simpl. by rewrite (IH ds' r').
    + by intros [= <- <-].
Qed.

Lemma take_sign_length l b r :
  take_sign l = (b, r) -> (length r <= length l)%nat.
Proof.
  destruct l as [|c l]; simpl.
  - by intros [= _ <-].
  - destruct (Ascii.eqb c "-"); [intros [= _ <-]; simpl; lia|].
    destruct (Ascii.eqb c "+"); intros [= _ <-]; simpl; lia.
Qed.

Lemma leading_zeros_length found l z r :
  leading_zeros found l = (z, r) -> (length r <= length l)%nat.
Proof.
  revert found. induction l as [|c l IH]; intros found; simpl.
  - by intros [= _ <-].
  - destruct (Ascii.eqb c "0").
    + intros H. apply IH in H. lia.
    + intros [= _ <-]. simpl. lia.
Qed.

Lemma float_chars_length_upto n :
  forall l mant dec sci x r,
  (length l <= n)%nat ->
  float_chars mant dec sci l = (x, r) -> (length r <= length l)%nat.
Proof.
  induction n as [|n IH]; intros l mant dec sci x r Hlen.
  { destruct l; [|simpl in Hlen; lia]. by intros [= _ <-]. }
  destruct l as [|c l]; simpl; [by intros [= _ <-]|].
  simpl in Hlen.
  destruct (isdigit c).
  { destruct (float_chars true dec sci l) as [x' r'] eqn:H.
    intros [= _ <-]. apply IH in H; lia. }
  destruct (Ascii.eqb c "." && negb dec && negb sci).
  { destruct (float_chars mant true sci l) as [x' r'] eqn:H.
    intros [= _ <-]. apply IH in H; lia. }
  destruct ((Ascii.eqb c "e" || Ascii.eqb c "E") && negb sci && mant);
    [|intros [= _ <-]; simpl; lia].
  destruct l as [|c' l']; [intros [= _ <-]; simpl; lia|].
  simpl in Hlen.
  destruct (Ascii.eqb c' "+" || Ascii.eqb c' "-").
  - destruct (float_chars mant dec true l') as [x' r'] eqn:H.
    intros [= _ <-]. apply IH in H; simpl; lia.
  - destruct (float_chars mant dec true (c' :: l')) as [x' r'] eqn:H.
    intros [= _ <-]. apply IH in H; simpl in *; lia.
Qed.

Lemma float_chars_length l mant dec sci x r :
  float_chars mant dec sci l = (x, r) -> (length r <= length l)%nat.
Proof. by apply (float_chars_length_upto (length l)). Qed.

Lemma accumulate_float_length l x r :
  accumulate_float l = (x, r) -> (length r <= length l)%nat.
Proof.
  unfold accumulate_float.
  set (signed := match l with [] => _ | _ => _ end).
  assert (length signed.2 <= length l)%nat as Hs.
  { subst signed. destruct l as [|c l]; simpl; [lia|].
    destruct (Ascii.eqb c "+" || Ascii.eqb c "-"); simpl; lia. }
  destruct signed as [sgn l1]. simpl in Hs.
  destruct (leading_zeros false l1) as [z l2] eqn:Hz.
  destruct (float_chars z false false l2) as [x' l3] eqn:Hf.
  intros [= _ <-].
  apply leading_zeros_length in Hz. apply float_chars_length in Hf. lia.
Qed.

(** No operation puts characters back. *)
Lemma sentry_length skip s b s' :
  sentry skip s = (b, s') -> (length (buf s') <= length (buf s))%nat.
Proof.
  unfold sentry. destruct (good s); [|by intros [= _ <-]].
  destruct skip; [|by intros [= _ <-]].
  pose proof (skipws_length (buf s)).
  destruct (skipws (buf s)); intros [= _ <-]; simpl in *; lia.
Qed.

Lemma extract_int_length s r s' :
  extract_int s = (r, s') -> (length (buf s') <= length (buf s))%nat.
Proof.
  unfold extract_int. destruct (sentry true s) as [[|] s1] eqn:Hs;
    apply sentry_length in Hs; [|by intros [= _ <-]].
  destruct (take_sign (buf s1)) as [neg b1] eqn:Hsign.
  destruct (span_digits b1) as [ds b2] eqn:Hspan.
  apply take_sign_length in Hsign. apply span_digits_length in Hspan.
  destruct (_ && _); intros [= _ <-]; simpl; lia.
Qed.

Lemma extract_double_length s r s' :
  extract_double s = (r, s') -> (length (buf s') <= length (buf s))%nat.
Proof.
  unfold extract_double. destruct (sentry true s) as [[|] s1] eqn:Hs;
    apply sentry_length in Hs; [|by intros [= _ <-]].
  destruct (accumulate_float (buf s1)) as [x rest] eqn:Hacc.
  apply accumulate_float_length in Hacc.
  destruct (strtod x) as [[| | |]|]; intros [= _ <-]; simpl; lia.
Qed.

Lemma extract_char_length s r s' :
  extract_char s = (r, s') -> (length (buf s') <= length (buf s))%nat.
Proof.
  unfold extract_char. destruct (sentry true s) as [[|] s1] eqn:Hs;
    apply sentry_length in Hs; [|by intros [= _ <-]].
  destruct (buf s1) eqn:Hb; intros [= _ <-]; simpl in *; lia.
Qed.

Lemma get_length s r s' :
  get s = (r, s') -> (length (buf s') <= length (buf s))%nat.
Proof.
  unfold get. destruct (sentry false s) as [[|] s1] eqn:Hs;
    apply sentry_length in Hs; [|by intros [= _ <-]].
  destruct (buf s1) eqn:Hb; intros [= _ <-]; simpl in *; lia.
Qed.

Lemma take_line_length l ln rest :
  take_line l = (ln, rest) ->
  match rest with
  | Some r => (length r < length l)%nat
  | None => True
  end.
Proof.
  revert ln rest. induction l as [|c l IH]; intros ln rest; simpl.
  - by intros [= _ <-].
  - destruct (Ascii.eqb c nl); [intros [= _ <-]; simpl; lia|].
    destruct (take_line l) as [ln' rest'] eqn:H. intros [= _ <-].
    specialize (IH _ _ eq_refl). destruct rest'; [lia|done].
Qed.

Lemma getline_length s str r s' :
  getline s str = (r, s') -> (length (buf s') <= length (buf s))%nat.
Proof.
  unfold getline. destruct (sentry false s) as [[|] s1] eqn:Hs;
    apply sentry_length in Hs; [|by intros [= _ <-]].
  destruct (take_line (buf s1)) as [ln [rest|]] eqn:Hl;
    apply take_line_length in Hl; intros [= _ <-]; simpl; lia.
Qed.

Lemma drop_line_length l r : drop_line l = Some r -> (length r < length l)%nat.
Proof.
  induction l as [|c l IH]; simpl; [discriminate|].
  destruct (Ascii.eqb c nl); [intros [= <-]; lia|].
  intros H. apply IH in H. lia.
Qed.

(** [clear_input_buffer] on the stream: with input left it discards at
    least one character and leaves the stream good; with none left it
    leaves none. *)
Lemma ignore_line_clear_length s :
  buf s <> [] ->
  (length (buf (ignore_line (clear s))) < length (buf s))%nat.
Proof.
  intros Hne. unfold ignore_line, clear, sentry. simpl.
  destruct (drop_line (buf s)) as [r|] eqn:Hd; simpl.
  - by apply drop_line_length.
  - destruct (buf s); [done|simpl; lia].
Qed.

Lemma ignore_line_clear_le s :
  (length (buf (ignore_line (clear s))) <= length (buf s))%nat.
Proof.
  destruct (buf s) eqn:Hb.
  - unfold ignore_line, clear, sentry. simpl. rewrite Hb. simpl. lia.
  - pose proof (ignore_line_clear_length s) as H. rewrite Hb in H.
    specialize (H ltac:(done)). lia.
Qed.

(** What [s >> n] delivers fits an [int]. *)
Lemma extract_int_range s v s' :
  extract_int s = (Some v, s') -> INT_MIN <= v <= INT_MAX.
Proof.
  unfold extract_int. destruct (sentry true s) as [[|] s1]; [|discriminate].
  destruct (take_sign (buf s1)) as [neg b1].
  destruct (span_digits b1) as [ds b2].
  destruct (_ && _) eqn:Hok; [|discriminate].
  intros [= <- _]. apply andb_true_iff in Hok as [Hok Hmax].
  apply andb_true_iff in Hok as [_ Hmin]. lia.
Qed.

(* ===================================================================== *)
(** ** Running a sequence of statements                                   *)
(* ===================================================================== *)

Lemma bind_done {A B} (m : M A) (k : A -> M B) w b w' :
  bind m k w = Done b w' ->
  exists a w1, m w = Done a w1 /\ k a w1 = Done b w'.
Proof.
  unfold bind. destruct (m w) as [a w1|w1]; [|discriminate]. eauto.
Qed.

Lemma bind_run {A B} (m : M A) (k : A -> M B) w a w1 :
  m w = Done a w1 -> bind m k w = k a w1.
Proof. intros H. unfold bind. by rewrite H. Qed.

Lemma finishes_ret {A} (a : A) (Q : A -> Prop) : Q a -> finishes (ret a) Q.
Proof. intros H w. by exists a, w. Qed.

Lemma finishes_bind {A B} (m : M A) (k : A -> M B) P Q :
  finishes m P -> (forall a, P a -> finishes (k a) Q) -> finishes (bind m k) Q.
Proof.
  intros Hm Hk w. destruct (Hm w) as (a & w1 & Hrun & Ha).
  rewrite (bind_run _ _ _ _ _ Hrun). by apply Hk.
Qed.

Lemma finishes_put x : finishes (put x) (fun _ => True).
Proof. intros w. by eexists _, _. Qed.

Lemma finishes_on_cin {A} (op : istream -> A * istream) :
  finishes (on_cin op) (fun _ => True).
Proof. intros w. unfold on_cin. destruct (op (cin w)). by eexists _, _. Qed.

Lemma finishes_update_calibration f :
  finishes (update_calibration f) (fun _ => True).
Proof. intros w. by eexists _, _. Qed.

Lemma finishes_set_fs f : finishes (set_fs f) (fun _ => True).
Proof. intros w. by eexists _, _. Qed.

Lemma finishes_pause_screen : finishes pause_screen (fun _ => True).
Proof.
  unfold pause_screen, puts.
  eapply finishes_bind; [apply finishes_put|intros _ _].
  eapply finishes_bind; [apply finishes_on_cin|intros _ _].
  by apply finishes_ret.
Qed.

Lemma finishes_clear_input_buffer : finishes clear_input_buffer (fun _ => True).
Proof. apply finishes_on_cin. Qed.

Create HintDb finish discriminated.
#[export] Hint Constants Opaque : finish.
#[export] Hint Resolve finishes_put finishes_on_cin finishes_update_calibration
  finishes_set_fs finishes_pause_screen finishes_clear_input_buffer : finish.

(** A sequence of prints, stream operations and stores ends with the value
    it returns last. *)
Ltac finish :=
  unfold puts, set_slope, set_offset, set_is_valid;
  repeat first
    [ apply finishes_ret; reflexivity
    | eapply finishes_bind; [ solve [ auto with finish ] | intros ? _ ] ].

Lemma finishes_display_results s o :
  finishes (display_results s o) (fun _ => True).
Proof.
  unfold display_results, puts.
  repeat (eapply finishes_bind; [ apply finishes_put | intros ? _ ]).
  apply finishes_put.
Qed.

Lemma finishes_display_loaded s o f :
  finishes (display_loaded s o f) (fun _ => True).
Proof.
  unfold display_loaded, puts.
  repeat (eapply finishes_bind; [ apply finishes_put | intros ? _ ]).
  apply finishes_put.
Qed.

#[export] Hint Resolve finishes_display_results finishes_display_loaded
  : finish.

(** The result of a computation that needs no budget, with what it ensures. *)
Lemma finishes_ensures {A} (m : M A) Q R w :
  finishes m Q -> ensures R m -> exists a w', m w = Done a w' /\ Q a /\ R w w'.
Proof.
  intros Hf He. destruct (Hf w) as (a & w' & Hrun & Ha).
  exists a, w'. repeat split; try done.
  specialize (He w). by rewrite Hrun in He.
Qed.

Lemma ensures_and (R1 R2 : relation World) {A} (m : M A) :
  ensures R1 m -> ensures R2 m -> ensures (fun w w' => R1 w w' /\ R2 w w') m.
Proof. intros H1 H2 w. split; [apply H1 | apply H2]. Qed.

(** A message printed first is still in the log at the end. *)
Lemma printed_first_stays {A} (x : out_item) (m : M A) w :
  ensures more_output m -> x ∈ cout (final_world (bind (put x) (fun _ => m) w)).
Proof.
  intros Hm. unfold bind, put.
  set (w1 := mkWorld _ _ _ _ _).
  specialize (Hm w1). unfold more_output in Hm.
  destruct Hm as [out ->]. subst w1. simpl. set_solver.
Qed.

Lemma elem_of_more_output x w w' :
  more_output w w' -> x ∈ cout w -> x ∈ cout w'.
Proof. intros [out ->]. set_solver. Qed.

Lemma bind_put {B} x (k : unit -> M B) w :
  bind (put x) k w
  = k tt (mkWorld (current_calibration w) (cin w) (cout w ++ [x]) (fs w)
                  (stack_char w)).
Proof. reflexivity. Qed.

Lemma bind_on_cin {A B} (op : istream -> A * istream) (k : A -> M B) w :
  bind (on_cin op) k w
  = k (op (cin w)).1
      (mkWorld (current_calibration w) (op (cin w)).2 (cout w) (fs w)
               (stack_char w)).
Proof. unfold bind, on_cin. by destruct (op (cin w)). Qed.

Lemma bind_get_fs {B} (k : FileSystem -> M B) w :
  bind get_fs k w = k (fs w) w.
Proof. reflexivity. Qed.

Lemma bind_get_calibration {B} (k : Calibration -> M B) w :
  bind get_calibration k w = k (current_calibration w) w.
Proof. reflexivity. Qed.

Lemma bind_update_calibration {B} f (k : unit -> M B) w :
  bind (update_calibration f) k w
  = k tt (mkWorld (f (current_calibration w)) (cin w) (cout w) (fs w)
                  (stack_char w)).
Proof. reflexivity. Qed.

(** An error path: a message, then statements that touch neither the
    store nor the files. *)
Lemma error_path {A} (msg : string) (m : M A) (a : A) w :
  finishes m (eq a) -> ensures untouched m -> ensures more_output m ->
  exists w', bind (puts msg) (fun _ => m) w = Done a w'
    /\ current_calibration w' = current_calibration w
    /\ fs w' = fs w
    /\ OStr msg ∈ cout w'.
Proof.
  intros Hf Hu Ho.
  pose proof (printed_first_stays (OStr msg) m w Ho) as Hin.
  unfold puts in *. rewrite bind_put in *.
  set (w1 := mkWorld _ _ _ _ _) in *.
  destruct (finishes_ensures m (eq a) untouched w1 Hf Hu)
    as (a' & w' & Hrun & <- & Hcal & Hfs).
  rewrite Hrun in *. by exists w'.
Qed.

Lemma error_path_from {A} (msg : string) (m : M A) (a : A) w0 w :
  current_calibration w = current_calibration w0 -> fs w = fs w0 ->
  finishes m (eq a) -> ensures untouched m -> ensures more_output m ->
  exists w', bind (puts msg) (fun _ => m) w = Done a w'
    /\ current_calibration w' = current_calibration w0
    /\ fs w' = fs w0
    /\ OStr msg ∈ cout w'.
Proof.
  intros Hcal0 Hfs0 Hf Hu Ho.
  destruct (error_path msg m a w Hf Hu Ho) as (w' & Hrun & Hcal & Hfs & Hmsg).
  exists w'. split; [exact Hrun|]. split; [congruence|]. split; [congruence|done].
Qed.

(* ===================================================================== *)
(** ** The regression                                                     *)
(* ===================================================================== *)

Section Accumulate.

Let sum_from (f : float -> float -> float) (acc : float)
    (l : list (float * float)) : float :=
  fold_left (fun a p => (a + f (fst p) (snd p))%float) l acc.

Lemma accumulate_from count :
  forall i raws refs a b c d,
  (i + count)%nat = length raws -> length refs = length raws ->
  let rest := zip (drop i raws) (drop i refs) in
  accumulate count i raws refs (a, b, c, d) =
    (sum_from (fun x _ => x) a rest, sum_from (fun _ y => y) b rest,
     sum_from (fun x y => (x * y)%float) c rest,
     sum_from (fun x _ => (x * x)%float) d rest).
Proof.
  induction count as [|k IH]; intros i raws refs a b c d Hi Hlen; simpl.
  - rewrite !drop_ge by lia. reflexivity.
  - destruct (lookup_lt_is_Some_2 raws i) as [x Hx]; [lia|].
    destruct (lookup_lt_is_Some_2 refs i) as [y Hy]; [lia|].
    unfold at_index. rewrite Hx, Hy. simpl.
    rewrite IH by lia.
    rewrite (drop_S raws x i Hx), (drop_S refs y i Hy). reflexivity.
Qed.

Lemma accumulate_all raws refs :
  length refs = length raws ->
  accumulate (length raws) 0 raws refs (0, 0, 0, 0)%float =
    (Spec.sum_x raws refs, Spec.sum_y raws refs,
     Spec.sum_xy raws refs, Spec.sum_x2 raws refs).
Proof.
  intros Hlen. rewrite accumulate_from by (try done; lia). reflexivity.
Qed.

End Accumulate.

(** What the prompts deliver. *)
Lemma read_num_points_done fuel :
  forall w n w', read_num_points fuel w = Done n w' -> 2 <= n.
Proof.
  induction fuel as [|f IH]; intros w n w' H; simpl in H; [discriminate|].
  apply bind_done in H as (_ & w1 & _ & H).
  apply bind_done in H as ([v|] & w2 & _ & H).
  - destruct (2 <=? v) eqn:Hv.
    + injection H as <- _. lia.
    + apply bind_done in H as (_ & w3 & _ & H).
      apply bind_done in H as (_ & w4 & _ & H). eauto.
  - apply bind_done in H as (_ & w3 & _ & H).
    apply bind_done in H as (_ & w4 & _ & H). eauto.
Qed.

Lemma for_loop_done_inv {S} (P : S -> Prop) (body : nat -> S -> M S) :
  (forall i s w s' w', P s -> body i s w = Done s' w' -> P s') ->
  forall count i s w s' w',
  P s -> for_loop count i body s w = Done s' w' -> P s'.
Proof.
  intros Hb count. induction count as [|c IH]; intros i s w s' w' Hs H.
  - simpl in H. injection H as <- _. done.
  - simpl in H. apply bind_done in H as (s1 & w1 & H1 & H). eauto.
Qed.

Lemma collect_point_lengths fuel k i vs w vs' w' :
  length vs.1 = k /\ length vs.2 = k ->
  collect_point fuel i vs w = Done vs' w' ->
  length vs'.1 = k /\ length vs'.2 = k.
Proof.
  destruct vs as [refs raws]. intros [Hrefs Hraws] H. unfold collect_point in H.
  repeat (apply bind_done in H as (? & ? & _ & H)).
  injection H as <- _. simpl in *. by rewrite !length_insert.
Qed.

Lemma read_points_done fuel w n refs raws w' :
  read_points fuel w = Done (n, (refs, raws)) w' ->
  2 <= n /\ length refs = Z.to_nat n /\ length raws = Z.to_nat n.
Proof.
  intros H. unfold read_points in H.
  apply bind_done in H as (_ & w1 & _ & H).
  apply bind_done in H as (n' & w2 & Hn & H).
  apply bind_done in H as (_ & w3 & _ & H).
  apply bind_done in H as (vs & w4 & Hvs & H).
  injection H as -> -> _.
  split; [by eapply read_num_points_done|].
  eapply (for_loop_done_inv (fun vs => length vs.1 = Z.to_nat n
                                       /\ length vs.2 = Z.to_nat n)) in Hvs.
  - exact Hvs.
  - intros. by eapply collect_point_lengths.
  - simpl. by rewrite !length_replicate.
Qed.

(** Comparison of binary64 values: [x <= y] excludes [y < x]. *)
Lemma SFcompare_antisym x y c :
  SFcompare x y = Some c -> SFcompare y x = Some (CompOpp c).
Proof.
  destruct x as [sx|sx| |sx mx ex], y as [sy|sy| |sy my ey]; simpl;
    try discriminate; intros [= <-];
    repeat match goal with s : bool |- _ => destruct s end;
    try reflexivity.
  all: rewrite (Z.compare_antisym ey ex).
  all: destruct (ey ?= ex)%Z; simpl; try reflexivity.
  all: rewrite (Pos.compare_cont_antisym mx my Eq); simpl.
  all: by rewrite ?CompOpp_involutive.
Qed.

Lemma leb_not_ltb (x y : float) :
  (x <=? y)%float = true -> (y <? x)%float = false.
Proof.
  rewrite leb_spec, ltb_spec. unfold SFleb, SFltb.
  destruct (SFcompare (Prim2SF x) (Prim2SF y)) as [c|] eqn:Hc; [|discriminate].
  rewrite (SFcompare_antisym _ _ _ Hc). by destruct c.
Qed.

(** The two ways [fit_and_store] returns. *)
Lemma fit_and_store_sums n refs raws :
  0 <= n -> length refs = Z.to_nat n -> length raws = Z.to_nat n ->
  accumulate (Z.to_nat n) 0 raws refs (0, 0, 0, 0)%float =
    (Spec.sum_x raws refs, Spec.sum_y raws refs,
     Spec.sum_xy raws refs, Spec.sum_x2 raws refs)
  /\ double_of_int n = Spec.count raws.
Proof.
  intros Hn Hrefs Hraws. split.
  - rewrite <- Hraws. apply accumulate_all. congruence.
  - unfold Spec.count. by rewrite Hraws, Z2Nat.id.
Qed.

Lemma fit_and_store_fits n refs raws w :
  0 <= n -> length refs = Z.to_nat n -> length raws = Z.to_nat n ->
  (abs (Spec.denom raws refs) <? 1e-10)%float = false ->
  exists w', fit_and_store n refs raws w = Done Success w'
    /\ current_calibration w'
       = mkCal (Spec.slope raws refs) (Spec.offset raws refs) true
    /\ fs w' = fs w.
Proof.
  intros Hn Hrefs Hraws Hguard. unfold fit_and_store.
  destruct (fit_and_store_sums n refs raws) as [-> ->]; try done.
  fold (Spec.denom raws refs). rewrite Hguard.
  fold (Spec.slope raws refs). fold (Spec.offset raws refs).
  unfold set_slope, set_offset, set_is_valid.
  do 3 (unfold bind at 1; unfold update_calibration at 1; simpl).
  set (w1 := mkWorld _ _ _ _ _).
  set (rest := bind (display_results _ _) _).
  destruct (finishes_ensures rest (eq Success) untouched w1)
    as (a & w' & Hrun & <- & Hcal & Hfs).
  - subst rest. finish.
  - subst rest. apply ensures_and; frame.
  - exists w'. split; [exact Hrun|]. split; [exact Hcal | exact Hfs].
Qed.

Lemma fit_and_store_degenerate n refs raws w :
  0 <= n -> length refs = Z.to_nat n -> length raws = Z.to_nat n ->
  (abs (Spec.denom raws refs) <? 1e-10)%float = true ->
  exists w', fit_and_store n refs raws w = Done (Failure DegenerateInputError) w'
    /\ current_calibration w' = current_calibration w
    /\ fs w' = fs w
    /\ OStr "\nError: All raw readings are identical. Cannot compute calibration.\n"
         ∈ cout w'.
Proof.
  intros Hn Hrefs Hraws Hguard. unfold fit_and_store.
  destruct (fit_and_store_sums n refs raws) as [-> ->]; try done.
  fold (Spec.denom raws refs). rewrite Hguard.
  apply error_path; [finish | apply ensures_and; frame | frame].
Qed.

(* ===================================================================== *)
(** ** At the end of the input                                            *)
(* ===================================================================== *)

Lemma sentry_exhausted s :
  exhausted s -> exists s', sentry true s = (false, s') /\ exhausted s'.
Proof.
  unfold exhausted, sentry. intros Hb. rewrite Hb.
  destruct (good s); simpl; eauto.
Qed.

Lemma extract_int_exhausted s :
  exhausted s -> exists s', extract_int s = (None, s') /\ exhausted s'.
Proof.
  intros H. destruct (sentry_exhausted s H) as (s' & Hs & He).
  unfold extract_int. rewrite Hs. eauto.
Qed.

Lemma extract_double_exhausted s :
  exhausted s -> exists s', extract_double s = (None, s') /\ exhausted s'.
Proof.
  intros H. destruct (sentry_exhausted s H) as (s' & Hs & He).
  unfold extract_double. rewrite Hs. eauto.
Qed.

Lemma extract_char_exhausted s :
  exhausted s -> exists s', extract_char s = (None, s') /\ exhausted s'.
Proof.
  intros H. destruct (sentry_exhausted s H) as (s' & Hs & He).
  unfold extract_char. rewrite Hs. eauto.
Qed.

Lemma get_exhausted s :
  exhausted s -> exists s', get s = (None, s') /\ exhausted s'.
Proof.
  unfold exhausted, get, sentry. intros Hb.
  destruct (good s); simpl; rewrite ?Hb; eauto.
Qed.

Lemma getline_exhausted s :
  exhausted s -> exists s', getline s "" = (""%string, s') /\ exhausted s'.
Proof.
  unfold exhausted, getline, sentry. intros Hb.
  destruct (good s); simpl; rewrite ?Hb; simpl; eauto.
Qed.

Lemma ignore_line_clear_exhausted s :
  exhausted s -> exhausted (ignore_line (clear s)).
Proof.
  unfold exhausted, ignore_line, clear, sentry. simpl. intros ->. reflexivity.
Qed.

(** The whole of [clear_input_buffer]: whatever the flags were, the line
    up to its newline is gone and the stream is good; without a newline
    everything is gone and [eofbit] is set. *)
Lemma drop_line_app l1 l2 :
  nl ∉ l1 -> drop_line (l1 ++ nl :: l2) = Some l2.
Proof.
  induction l1 as [|c l1 IH]; simpl; intros Hnl.
  - reflexivity.
  - destruct (Ascii.eqb_spec c nl) as [->|Hc].
    + exfalso. apply Hnl. by left.
    + apply IH. intros Hin. apply Hnl. by right.
Qed.

Lemma drop_line_none l : nl ∉ l -> drop_line l = None.
Proof.
  induction l as [|c l IH]; simpl; intros Hnl; [done|].
  destruct (Ascii.eqb_spec c nl) as [->|Hc].
  - exfalso. apply Hnl. by left.
  - apply IH. intros Hin. apply Hnl. by right.
Qed.

Lemma clear_input_buffer_cin w :
  cin (final_world (clear_input_buffer w)) = ignore_line (clear (cin w)).
Proof. reflexivity. Qed.

(** One attempt of a prompt. *)
Lemma read_double_attempt prompt complaint fuel w :
  read_double prompt complaint (S fuel) w
  = match (extract_double (cin w)).1 with
    | Some x =>
        Done x (mkWorld (current_calibration w) (extract_double (cin w)).2
                        (cout w ++ [OStr prompt]) (fs w) (stack_char w))
    | None =>
        read_double prompt complaint fuel
          (mkWorld (current_calibration w)
                   (ignore_line (clear (extract_double (cin w)).2))
                   ((cout w ++ [OStr prompt]) ++ [OStr complaint])
                   (fs w) (stack_char w))
    end.
Proof.
  simpl. unfold puts. rewrite bind_put, bind_on_cin. simpl.
  destruct (extract_double (cin w)) as [[x|] s1]; simpl; [reflexivity|].
  rewrite bind_put. reflexivity.
Qed.

Lemma read_double_exhausted prompt complaint fuel :
  forall w, exhausted (cin w) ->
  exists w', read_double prompt complaint fuel w = Timeout w'
    /\ exhausted (cin w').
Proof.
  induction fuel as [|f IH]; intros w He.
  - exists w. done.
  - rewrite read_double_attempt.
    destruct (extract_double_exhausted _ He) as (s' & Hs & He').
    rewrite Hs. simpl. apply IH. simpl.
    by apply ignore_line_clear_exhausted.
Qed.

Lemma read_double_spins prompt complaint fuel :
  forall w w',
  (length (buf (cin w)) < fuel)%nat \/ exhausted (cin w) ->
  read_double prompt complaint fuel w = Timeout w' ->
  exhausted (cin w')
  /\ forall fuel', exists w'', read_double prompt complaint fuel' w = Timeout w''.
Proof.
  induction fuel as [|f IH]; intros w w' Hlen Hrun.
  - destruct Hlen as [Hlen|He]; [lia|].
    injection Hrun as <-. split; [done|].
    intros fuel'. destruct (read_double_exhausted prompt complaint fuel' w He)
      as (w'' & Hw & _). eauto.
  - rewrite read_double_attempt in Hrun.
    destruct (extract_double (cin w)) as [[x|] s1] eqn:Hs; simpl in Hrun;
      [discriminate|].
    apply IH in Hrun as [He Hall].
    + split; [done|]. intros [|f']; [by exists w|].
      rewrite read_double_attempt, Hs. simpl. apply Hall.
    + simpl. pose proof (extract_double_length _ _ _ Hs) as Hle.
      destruct (buf s1) eqn:Hb.
      * right. by apply ignore_line_clear_exhausted.
      * left. pose proof (ignore_line_clear_length s1) as Hlt.
        rewrite Hb in Hlt. specialize (Hlt ltac:(done)). simpl in *.
        destruct Hlen as [Hlen|He]; [lia|].
        unfold exhausted in He. rewrite He in Hle. simpl in Hle. lia.
Qed.

Lemma read_num_points_range fuel :
  forall w n w', read_num_points fuel w = Done n w' -> 2 <= n <= INT_MAX.
Proof.
  induction fuel as [|f IH]; intros w n w' H; simpl in H; [discriminate|].
  unfold puts in H. rewrite bind_put, bind_on_cin in H.
  destruct (extract_int _) as [[v|] s1] eqn:Hs; simpl in H.
  - destruct (2 <=? v) eqn:Hv.
    + injection H as <- _. apply extract_int_range in Hs. lia.
    + apply bind_done in H as (_ & w3 & _ & H).
      apply bind_done in H as (_ & w4 & _ & H). eauto.
  - apply bind_done in H as (_ & w3 & _ & H).
    apply bind_done in H as (_ & w4 & _ & H). eauto.
Qed.

(* ===================================================================== *)
(** ** The commands, path by path                                         *)
(* ===================================================================== *)

Section Load.

Variable w : World.

Let name := next_line w.

Lemma load_cannot_open :
  open_read (fs w) name = None ->
  exists w', load_calibration_from_file w = Done (Failure FileOpenError) w'
    /\ current_calibration w' = current_calibration w
    /\ fs w' = fs w
    /\ OStr "\nError: Cannot open file '" ∈ cout w'.
Proof.
  intros Hopen. unfold load_calibration_from_file, puts.
  rewrite !bind_put, bind_on_cin, bind_get_fs. simpl.
  fold (next_line w). fold name. rewrite Hopen.
  set (w1 := mkWorld _ _ _ _ _).
  destruct (error_path "\nError: Cannot open file '"
              (puts name ;; puts "'\n" ;;
               puts "Make sure the file exists in the current directory.\n" ;;
               pause_screen ;; ret (Failure FileOpenError))
              (Failure FileOpenError) w1)
    as (w' & Hrun & Hcal & Hfs & Hmsg).
  - finish.
  - apply ensures_and; frame.
  - frame.
  - by exists w'.
Qed.

Lemma load_cannot_read_slope text file :
  open_read (fs w) name = Some text ->
  extract_double (open text) = (None, file) ->
  exists w', load_calibration_from_file w = Done (Failure (ParseError "slope")) w'
    /\ current_calibration w' = current_calibration w
    /\ fs w' = fs w
    /\ OStr "\nError: Cannot read slope from file.\n" ∈ cout w'.
Proof.
  intros Hopen Hslope. unfold load_calibration_from_file, puts.
  rewrite !bind_put, bind_on_cin, bind_get_fs. simpl.
  fold (next_line w). fold name. rewrite Hopen, Hslope.
  set (w1 := mkWorld _ _ _ _ _).
  destruct (error_path "\nError: Cannot read slope from file.\n"
              (pause_screen ;; ret (Failure (ParseError "slope")))
              (Failure (ParseError "slope")) w1)
    as (w' & Hrun & Hcal & Hfs & Hmsg).
  - finish.
  - apply ensures_and; frame.
  - frame.
  - by exists w'.
Qed.

Lemma load_cannot_read_offset text s file file' :
  open_read (fs w) name = Some text ->
  extract_double (open text) = (Some s, file) ->
  extract_double file = (None, file') ->
  exists w', load_calibration_from_file w = Done (Failure (ParseError "offset")) w'
    /\ current_calibration w' = current_calibration w
    /\ fs w' = fs w
    /\ OStr "\nError: Cannot read offset from file.\n" ∈ cout w'.
Proof.
  intros Hopen Hslope Hoffset. unfold load_calibration_from_file, puts.
  rewrite !bind_put, bind_on_cin, bind_get_fs. simpl.
  fold (next_line w). fold name. rewrite Hopen, Hslope, Hoffset.
  set (w1 := mkWorld _ _ _ _ _).
  destruct (error_path "\nError: Cannot read offset from file.\n"
              (pause_screen ;; ret (Failure (ParseError "offset")))
              (Failure (ParseError "offset")) w1)
    as (w' & Hrun & Hcal & Hfs & Hmsg).
  - finish.
  - apply ensures_and; frame.
  - frame.
  - by exists w'.
Qed.

Lemma load_replaces_store text s file o file' :
  open_read (fs w) name = Some text ->
  extract_double (open text) = (Some s, file) ->
  extract_double file = (Some o, file') ->
  exists w', load_calibration_from_file w = Done Success w'
    /\ current_calibration w' = mkCal s o true
    /\ fs w' = fs w.
Proof.
  intros Hopen Hslope Hoffset. unfold load_calibration_from_file, puts.
  rewrite !bind_put, bind_on_cin, bind_get_fs. simpl.
  fold (next_line w). fold name. rewrite Hopen, Hslope, Hoffset.
  unfold set_slope, set_offset, set_is_valid.
  rewrite !bind_update_calibration. simpl.
  set (w1 := mkWorld _ _ _ _ _).
  set (rest := bind (display_loaded _ _ _) _).
  destruct (finishes_ensures rest (eq Success) untouched w1)
    as (a & w' & Hrun & <- & Hcal & Hfs).
  - subst rest. finish.
  - subst rest. apply ensures_and; frame.
  - exists w'. split; [exact Hrun|]. split; [exact Hcal | exact Hfs].
Qed.

End Load.

Lemma convert_not_calibrated fuel w :
  is_valid (current_calibration w) = false ->
  exists w', convert_raw_reading fuel w = Done (Failure NotCalibratedError) w'
    /\ current_calibration w' = current_calibration w
    /\ fs w' = fs w
    /\ OStr "\nNo calibration loaded.\n" ∈ cout w'.
Proof.
  intros Hinvalid. unfold convert_raw_reading, puts at 1.
  rewrite bind_put, bind_get_calibration. simpl. rewrite Hinvalid. simpl.
  set (w1 := mkWorld _ _ _ _ _).
  destruct (error_path "\nNo calibration loaded.\n"
    (puts "Please enter calibration data (option 1) or load from file (option 2) first.\n" ;;
     pause_screen ;; ret (Failure NotCalibratedError))
    (Failure NotCalibratedError) w1) as (w' & Hrun & Hcal & Hfs & Hmsg).
  - finish.
  - apply ensures_and; frame.
  - frame.
  - by exists w'.
Qed.

Lemma save_no_calibration w :
  is_valid (current_calibration w) = false ->
  exists w', save_calibration_to_file w = Done (Failure NoCalibrationError) w'
    /\ current_calibration w' = current_calibration w
    /\ fs w' = fs w
    /\ OStr "\nNo calibration to save.\n" ∈ cout w'.
Proof.
  intros Hinvalid. unfold save_calibration_to_file, puts at 1.
  rewrite bind_put, bind_get_calibration. simpl. rewrite Hinvalid. simpl.
  set (w1 := mkWorld _ _ _ _ _).
  destruct (error_path "\nNo calibration to save.\n"
    (puts "Please enter calibration data (option 1) or load from file (option 2) first.\n" ;;
     pause_screen ;; ret (Failure NoCalibrationError))
    (Failure NoCalibrationError) w1) as (w' & Hrun & Hcal & Hfs & Hmsg).
  - finish.
  - apply ensures_and; frame.
  - frame.
  - by exists w'.
Qed.

(* ===================================================================== *)
(** ** The menu loop                                                      *)
(* ===================================================================== *)

Lemma display_menu_run w :
  display_menu w
  = Done tt (mkWorld (current_calibration w) (cin w) (cout w ++ menu_items)
                     (fs w) (stack_char w)).
Proof.
  unfold display_menu, puts. rewrite !bind_put. unfold put. simpl.
  by rewrite <- !app_assoc.
Qed.

Lemma banner_run w :
  banner w
  = Done tt (mkWorld (current_calibration w) (cin w)
               (cout w ++ [OStr "\n========================================\n";
                           OStr "    SENSOR CALIBRATION TOOL\n";
                           OStr "========================================\n\n"])
               (fs w) (stack_char w)).
Proof.
  unfold banner, puts. rewrite !bind_put. unfold put. simpl.
  by rewrite <- !app_assoc.
Qed.

Lemma clear_input_buffer_run w :
  clear_input_buffer w = Done tt (final_world (clear_input_buffer w)).
Proof. reflexivity. Qed.

(** One turn, by what is read as the choice. *)
Lemma menu_turn_no_choice fuel w :
  next_choice w = None ->
  menu_turn fuel w
  = (puts "\nInvalid input. Enter a number between 1 and 5.\n" ;;
     clear_input_buffer ;; pause_screen ;; ret BadInput) (after_menu w).
Proof.
  intros Hc. unfold menu_turn.
  rewrite (bind_run _ _ _ _ _ (display_menu_run w)), bind_on_cin. simpl.
  fold (next_choice w). by rewrite Hc.
Qed.

Lemma menu_turn_choice fuel w choice :
  next_choice w = Some choice ->
  menu_turn fuel w = dispatch fuel choice (at_switch w).
Proof.
  intros Hc. unfold menu_turn.
  rewrite (bind_run _ _ _ _ _ (display_menu_run w)), bind_on_cin. simpl.
  fold (next_choice w). rewrite Hc.
  by rewrite (bind_run _ _ _ _ _ (clear_input_buffer_run _)).
Qed.

Lemma at_switch_untouched w : untouched w (at_switch w).
Proof.
  unfold at_switch. split.
  - apply (clear_input_buffer_keeps_calibration (after_menu w)).
  - apply (clear_input_buffer_keeps_fs (after_menu w)).
Qed.

Lemma at_switch_more_output w : more_output w (at_switch w).
Proof.
  unfold at_switch. etransitivity; [|apply clear_input_buffer_more_output].
  unfold more_output, after_menu. simpl. by apply prefix_app_r.
Qed.

Lemma dispatch_default {A} (n : Z) (a1 a2 a3 a4 a5 d : A) :
  n < 1 \/ 5 < n ->
  match n with 1 => a1 | 2 => a2 | 3 => a3 | 4 => a4 | 5 => a5 | _ => d end = d.
Proof.
  intros Hn. destruct n as [|p|p]; try reflexivity.
  destruct p as [[q|q|]|[q|q|]|]; try reflexivity; try lia;
    destruct q; try reflexivity; lia.
Qed.


Lemma menu_turn_bad_input fuel w :
  next_choice w = None ->
  exists w', menu_turn fuel w = Done BadInput w'
    /\ current_calibration w' = current_calibration w
    /\ fs w' = fs w
    /\ OStr "\nInvalid input. Enter a number between 1 and 5.\n" ∈ cout w'.
Proof.
  intros Hc. rewrite menu_turn_no_choice by done.
  destruct (error_path "\nInvalid input. Enter a number between 1 and 5.\n"
              (clear_input_buffer ;; pause_screen ;; ret BadInput) BadInput
              (after_menu w)) as (w' & Hrun & Hcal & Hfs & Hmsg).
  - finish.
  - apply ensures_and; frame.
  - frame.
  - by exists w'.
Qed.

Lemma menu_turn_bad_option fuel w n :
  next_choice w = Some n -> n < 1 \/ 5 < n ->
  exists w', menu_turn fuel w = Done (BadOption n) w'
    /\ current_calibration w' = current_calibration w
    /\ fs w' = fs w
    /\ OStr "\nInvalid option. Choose between 1 and 5.\n" ∈ cout w'.
Proof.
  intros Hc Hn. rewrite (menu_turn_choice _ _ _ Hc).
  unfold dispatch. rewrite dispatch_default by done.
  destruct (at_switch_untouched w) as [Hcal0 Hfs0].
  destruct (error_path "\nInvalid option. Choose between 1 and 5.\n"
              (pause_screen ;; ret (BadOption n)) (BadOption n)
              (at_switch w)) as (w' & Hrun & Hcal & Hfs & Hmsg).
  - finish.
  - apply ensures_and; frame.
  - frame.
  - exists w'. unfold same in *. repeat split; try done; congruence.
Qed.



Lemma menu_loop_continues fuel turns w t w' :
  menu_turn fuel w = Done t w' -> is_exit t = false ->
  menu_loop fuel (S turns) w = menu_loop fuel turns w'.
Proof.
  intros Hrun Ht. simpl. rewrite (bind_run _ _ _ _ _ Hrun). by destruct t.
Qed.


(* ===================================================================== *)
(** ** Saving                                                             *)
(* ===================================================================== *)

Lemma save_writes_file w :
  is_valid (current_calibration w) = true ->
  can_create (fs w) (next_line w) = true ->
  exists w', save_calibration_to_file w = Done Success w'
    /\ current_calibration w' = current_calibration w
    /\ fs w' = write_file (fs w) (next_line w)
                 (saved_text (current_calibration w)).
Proof.
  intros Hv Hc. unfold save_calibration_to_file, puts at 1.
  rewrite bind_put, bind_get_calibration. simpl. rewrite Hv. simpl.
  unfold puts at 1. rewrite bind_put, bind_on_cin, bind_get_fs. simpl.
  fold (next_line w). rewrite Hc. simpl.
  unfold bind at 1, set_fs at 1. simpl.
  set (w1 := mkWorld _ _ _ _ _).
  set (rest := bind (puts _) _).
  destruct (finishes_ensures rest (eq Success) untouched w1)
    as (a & w' & Hrun & <- & Hcal & Hfs).
  - subst rest. finish.
  - subst rest. apply ensures_and; frame.
  - exists w'. split; [exact Hrun|]. split; [exact Hcal | exact Hfs].
Qed.

Lemma save_cannot_create w :
  is_valid (current_calibration w) = true ->
  can_create (fs w) (next_line w) = false ->
  exists w', save_calibration_to_file w = Done (Failure FileWriteError) w'
    /\ current_calibration w' = current_calibration w
    /\ fs w' = fs w
    /\ OStr "\nError: Cannot create file '" ∈ cout w'.
Proof.
  intros Hv Hc. unfold save_calibration_to_file, puts at 1.
  rewrite bind_put, bind_get_calibration. simpl. rewrite Hv. simpl.
  unfold puts at 1. rewrite bind_put, bind_on_cin, bind_get_fs. simpl.
  fold (next_line w). rewrite Hc. simpl.
  apply error_path_from;
    [reflexivity | reflexivity | finish | apply ensures_and; frame | frame].
Qed.

(** Every way [save_calibration_to_file] returns. *)
Lemma save_calibration_to_file_effect w :
  exists o w', save_calibration_to_file w = Done o w'
    /\ current_calibration w' = current_calibration w
    /\ match o with
       | Success =>
           fs w' = write_file (fs w) (next_line w)
                     (saved_text (current_calibration w))
       | Failure e =>
           fs w' = fs w /\ (e = NoCalibrationError \/ e = FileWriteError)
       end.
Proof.
  destruct (is_valid (current_calibration w)) eqn:Hv.
  - destruct (can_create (fs w) (next_line w)) eqn:Hc.
    + destruct (save_writes_file w Hv Hc) as (w' & Hrun & Hcal & Hfs).
      exists Success, w'. auto.
    + destruct (save_cannot_create w Hv Hc) as (w' & Hrun & Hcal & Hfs & _).
      exists (Failure FileWriteError), w'. auto.
  - destruct (save_no_calibration w Hv) as (w' & Hrun & Hcal & Hfs & _).
    exists (Failure NoCalibrationError), w'. auto.
Qed.


(* ===================================================================== *)
(** ** What a turn does to the store                                      *)
(* ===================================================================== *)

Lemma enter_calibration_data_effect fuel w :
  match enter_calibration_data fuel w with
  | Done Success w' => fitted fuel w = Some (current_calibration w')
  | Done (Failure e) w' =>
      e = DegenerateInputError /\ current_calibration w' = current_calibration w
  | Timeout w' => current_calibration w' = current_calibration w
  end.
Proof.
  unfold enter_calibration_data, fitted.
  pose proof (read_points_keeps_calibration fuel w) as Hkeep.
  destruct (read_points fuel w) as [[n [refs raws]] w1|w1] eqn:Hread.
  - rewrite (bind_run _ _ _ _ _ Hread).
    destruct (read_points_done _ _ _ _ _ _ Hread) as (Hn & Hrefs & Hraws).
    destruct (abs (Spec.denom raws refs) <? 1e-10)%float eqn:Hguard.
    + destruct (fit_and_store_degenerate n refs raws w1)
        as (w2 & -> & Hcal & _); try done; [lia|].
      split; [done|]. by rewrite Hcal.
    + destruct (fit_and_store_fits n refs raws w1)
        as (w2 & -> & Hcal & _); try done; [lia|]. by rewrite Hcal.
  - unfold bind. rewrite Hread. exact Hkeep.
Qed.

Lemma load_calibration_from_file_effect w :
  exists o w', load_calibration_from_file w = Done o w' /\
    match o with
    | Success => loaded w = Some (current_calibration w')
    | Failure e =>
        (e = FileOpenError \/ exists field, e = ParseError field)
        /\ current_calibration w' = current_calibration w
    end.
Proof.
  unfold loaded.
  destruct (open_read (fs w) (next_line w)) as [text|] eqn:Hopen.
  - destruct (extract_double (open text)) as [[s|] file] eqn:Hs.
    + destruct (extract_double file) as [[o|] file'] eqn:Ho.
      * destruct (load_replaces_store w _ _ _ _ _ Hopen Hs Ho)
          as (w' & Hrun & Hcal & _).
        exists Success, w'. by rewrite Hcal.
      * destruct (load_cannot_read_offset w _ _ _ _ Hopen Hs Ho)
          as (w' & Hrun & Hcal & _).
        exists (Failure (ParseError "offset")), w'. eauto.
    + destruct (load_cannot_read_slope w _ _ Hopen Hs)
        as (w' & Hrun & Hcal & _).
      exists (Failure (ParseError "slope")), w'. eauto.
  - destruct (load_cannot_open w Hopen) as (w' & Hrun & Hcal & _).
    exists (Failure FileOpenError), w'. eauto.
Qed.

(** With a valid store the conversion does not take the error path. *)
Lemma convert_raw_reading_outcome fuel w o w' :
  convert_raw_reading fuel w = Done o w' ->
  o = Success
  \/ (o = Failure NotCalibratedError /\ is_valid (current_calibration w) = false).
Proof.
  intros H. destruct (is_valid (current_calibration w)) eqn:Hv.
  - left. unfold convert_raw_reading, puts at 1 in H.
    rewrite bind_put, bind_get_calibration in H. simpl in H.
    rewrite Hv in H. simpl in H.
    repeat (apply bind_done in H as (? & ? & _ & H)). by injection H as <- _.
  - right. destruct (convert_not_calibrated fuel w Hv) as (w1 & Hrun & _).
    split; [congruence|done].
Qed.

Lemma save_calibration_to_file_outcome w :
  exists o w', save_calibration_to_file w = Done o w' /\
    (o = Success \/ o = Failure FileWriteError
     \/ (o = Failure NoCalibrationError
         /\ is_valid (current_calibration w) = false)).
Proof.
  destruct (is_valid (current_calibration w)) eqn:Hv.
  - unfold save_calibration_to_file, puts at 1.
    rewrite bind_put, bind_get_calibration. simpl. rewrite Hv. simpl.
    unfold puts at 1. rewrite bind_put, bind_on_cin, bind_get_fs. simpl.
    set (w1 := mkWorld _ _ _ _ _).
    destruct (can_create _ _); simpl.
    + set (m := bind (set_fs _) _).
      destruct (finishes_ensures m (eq Success) (fun _ _ => True) w1)
        as (a & w' & Hrun & <- & _); [subst m; finish | done | eauto 6].
    + set (m := bind (puts _) _).
      destruct (finishes_ensures m (eq (Failure FileWriteError))
                  (fun _ _ => True) w1)
        as (a & w' & Hrun & <- & _); [subst m; finish | done | eauto 6].
  - destruct (save_no_calibration w Hv) as (w' & Hrun & _). eauto 8.
Qed.

Lemma bind_ret {A B} (m : M A) (f : A -> B) w :
  bind m (fun a => ret (f a)) w
  = match m w with
    | Done a w' => Done (f a) w'
    | Timeout w' => Timeout w'
    end.
Proof. reflexivity. Qed.

Lemma choice_cases (n : Z) :
  n = 1 \/ n = 2 \/ n = 3 \/ n = 4 \/ n = 5 \/ (n < 1 \/ 5 < n).
Proof. lia. Qed.

(** One turn either leaves the store as it is, or is a successful
    command 1 or 2 and the store is the record that command writes. *)
Lemma menu_turn_effect fuel w :
  match menu_turn fuel w with
  | Done t w' =>
      if sets_calibration t then
        (t = Ran 1 Success
         /\ fitted fuel (at_switch w) = Some (current_calibration w'))
        \/ (t = Ran 2 Success
            /\ loaded (at_switch w) = Some (current_calibration w'))
      else current_calibration w' = current_calibration w
  | Timeout w' => current_calibration w' = current_calibration w
  end.
Proof.
  destruct (next_choice w) as [n|] eqn:Hc.
  - rewrite (menu_turn_choice _ _ _ Hc).
    destruct (at_switch_untouched w) as [Hcal0 _]. unfold same in Hcal0.
    destruct (choice_cases n) as [->|[->|[->|[->|[->|Hout]]]]].
    + unfold dispatch. rewrite bind_ret.
      pose proof (enter_calibration_data_effect fuel (at_switch w)) as He.
      destruct (enter_calibration_data fuel (at_switch w)) as [[|e] w'|w'];
        simpl; [by left | destruct He; congruence | congruence].
    + unfold dispatch. rewrite bind_ret.
      destruct (load_calibration_from_file_effect (at_switch w))
        as ([|e] & w' & -> & He); simpl;
        [by right | destruct He; congruence].
    + unfold dispatch. rewrite bind_ret.
      pose proof (convert_raw_reading_keeps_calibration fuel (at_switch w)) as He.
      unfold same in He.
      destruct (convert_raw_reading fuel (at_switch w)) as [o w'|w'];
        simpl in *; congruence.
    + unfold dispatch. rewrite bind_ret.
      destruct (save_calibration_to_file_effect (at_switch w))
        as (o & w' & -> & He & _); simpl. congruence.
    + simpl. exact Hcal0.
    + destruct (menu_turn_bad_option fuel w n Hc Hout) as (w' & Hrun & Hcal & _).
      rewrite (menu_turn_choice _ _ _ Hc) in Hrun. rewrite Hrun. exact Hcal.
  - destruct (menu_turn_bad_input fuel w Hc) as (w' & Hrun & Hcal & _).
    rewrite Hrun. exact Hcal.
Qed.

(** One turn either leaves the files as they are, or is a successful
    command 4 and the one file named is rewritten. *)
Lemma menu_turn_files fuel w :
  match menu_turn fuel w with
  | Done (Ran 4 Success) w' =>
      fs w' = write_file (fs w) (next_line (at_switch w))
                (saved_text (current_calibration w))
  | Done _ w' | Timeout w' => fs w' = fs w
  end.
Proof.
  destruct (next_choice w) as [n|] eqn:Hc.
  - rewrite (menu_turn_choice _ _ _ Hc).
    destruct (at_switch_untouched w) as [Hcal0 Hfs0]. unfold same in *.
    destruct (choice_cases n) as [->|[->|[->|[->|[->|Hout]]]]].
    + unfold dispatch. rewrite bind_ret.
      pose proof (enter_calibration_data_keeps_fs fuel (at_switch w)) as He.
      unfold same in He.
      destruct (enter_calibration_data fuel (at_switch w)) as [[|e] w'|w'];
        simpl in *; congruence.
    + unfold dispatch. rewrite bind_ret.
      pose proof (load_calibration_from_file_keeps_fs (at_switch w)) as He.
      unfold same in He.
      destruct (load_calibration_from_file (at_switch w)) as [[|e] w'|w'];
        simpl in *; congruence.
    + unfold dispatch. rewrite bind_ret.
      pose proof (convert_raw_reading_keeps_fs fuel (at_switch w)) as He.
      unfold same in He.
      destruct (convert_raw_reading fuel (at_switch w)) as [[|e] w'|w'];
        simpl in *; congruence.
    + unfold dispatch. rewrite bind_ret.
      destruct (save_calibration_to_file_effect (at_switch w))
        as ([|e] & w' & -> & _ & He); simpl.
      * by rewrite He, Hcal0, Hfs0.
      * destruct He. congruence.
    + simpl. exact Hfs0.
    + destruct (menu_turn_bad_option fuel w n Hc Hout)
        as (w' & Hrun & _ & Hfs & _).
      rewrite (menu_turn_choice _ _ _ Hc) in Hrun. rewrite Hrun. exact Hfs.
  - destruct (menu_turn_bad_input fuel w Hc) as (w' & Hrun & _ & Hfs & _).
    rewrite Hrun. exact Hfs.
Qed.

Lemma fitted_valid fuel w c : fitted fuel w = Some c -> is_valid c = true.
Proof.
  unfold fitted. destruct (read_points fuel w) as [[n [refs raws]] w'|w'];
    [|discriminate]. by intros [= <-].
Qed.

Lemma loaded_valid w c : loaded w = Some c -> is_valid c = true.
Proof.
  unfold loaded. destruct (open_read _ _); [|discriminate].
  destruct (extract_double _) as [[s|] file]; [|discriminate].
  destruct (extract_double _) as [[o|] file']; [|discriminate].
  by intros [= <-].
Qed.

(** Validity after a turn. *)
Lemma menu_turn_validity fuel w t w' :
  menu_turn fuel w = Done t w' ->
  is_valid (current_calibration w')
  = sets_calibration t || is_valid (current_calibration w).
Proof.
  intros Hrun. pose proof (menu_turn_effect fuel w) as He. rewrite Hrun in He.
  destruct (sets_calibration t).
  - destruct He as [[_ Hc]|[_ Hc]]; simpl.
    + by apply fitted_valid in Hc.
    + by apply loaded_valid in Hc.
  - simpl. by rewrite He.
Qed.

Lemma session_validity w ts w' :
  session w ts w' ->
  is_valid (current_calibration w')
  = existsb sets_calibration ts || is_valid (current_calibration w).
Proof.
  induction 1 as [w|w fuel t w1 ts w2 Hrun Hexit Hsession IH]; simpl.
  - reflexivity.
  - rewrite IH, (menu_turn_validity _ _ _ _ Hrun).
    by rewrite orb_assoc, (orb_comm (existsb _ _)).
Qed.

Lemma session_store_kept w ts w' :
  session w ts w' -> existsb sets_calibration ts = false ->
  current_calibration w' = current_calibration w.
Proof.
  induction 1 as [w|w fuel t w1 ts w2 Hrun Hexit Hsession IH]; simpl.
  - reflexivity.
  - intros Hnone. apply orb_false_iff in Hnone as [Ht Hts].
    rewrite IH by done.
    pose proof (menu_turn_effect fuel w) as He. rewrite Hrun, Ht in He. exact He.
Qed.

(** With a valid store no command takes a not-calibrated path. *)
Lemma menu_turn_calibrated fuel w t w' :
  is_valid (current_calibration w) = true ->
  menu_turn fuel w = Done t w' ->
  forall c, t <> Ran c (Failure NotCalibratedError)
         /\ t <> Ran c (Failure NoCalibrationError).
Proof.
  intros Hv Hrun c.
  destruct (next_choice w) as [n|] eqn:Hc.
  - rewrite (menu_turn_choice _ _ _ Hc) in Hrun.
    destruct (at_switch_untouched w) as [Hcal0 _]. unfold same in Hcal0.
    rewrite <- Hcal0 in Hv.
    destruct (choice_cases n) as [->|[->|[->|[->|[->|Hout]]]]].
    + unfold dispatch in Hrun. rewrite bind_ret in Hrun.
      pose proof (enter_calibration_data_effect fuel (at_switch w)) as He.
      destruct (enter_calibration_data fuel (at_switch w)) as [[|e] w1|w1];
        [| destruct He as [-> _] | discriminate]; by injection Hrun as <- _.
    + unfold dispatch in Hrun. rewrite bind_ret in Hrun.
      destruct (load_calibration_from_file_effect (at_switch w))
        as ([|e] & w1 & Hl & He); rewrite Hl in Hrun; injection Hrun as <- _;
        [done|].
      destruct He as [[->|[field ->]] _]; done.
    + unfold dispatch in Hrun. rewrite bind_ret in Hrun.
      destruct (convert_raw_reading fuel (at_switch w)) as [o w1|w1] eqn:Hconv;
        [|discriminate].
      injection Hrun as <- _.
      apply convert_raw_reading_outcome in Hconv as [->|[_ Hinv]];
        [done | congruence].
    + unfold dispatch in Hrun. rewrite bind_ret in Hrun.
      destruct (save_calibration_to_file_outcome (at_switch w))
        as (o & w1 & Hs & Ho). rewrite Hs in Hrun. injection Hrun as <- _.
      destruct Ho as [->|[->|[_ Hinv]]]; [done | done | congruence].
    + simpl in Hrun. by injection Hrun as <- _.
    + destruct (menu_turn_bad_option fuel w n Hc Hout) as (w1 & Hrun1 & _).
      rewrite (menu_turn_choice _ _ _ Hc) in Hrun1.
      rewrite Hrun1 in Hrun. by injection Hrun as <- _.
  - destruct (menu_turn_bad_input fuel w Hc) as (w1 & Hrun1 & _).
    rewrite Hrun1 in Hrun. by injection Hrun as <- _.
Qed.

(* ===================================================================== *)
(** ** The menu at the end of the input                                   *)
(* ===================================================================== *)

#[export] Instance stays_exhausted_preorder : PreOrder stays_exhausted.
Proof.
  split.
  - intros w. by unfold stays_exhausted.
  - intros w1 w2 w3 H12 H23. unfold stays_exhausted in *. auto.
Qed.

Lemma put_stays_exhausted x : ensures stays_exhausted (put x).
Proof. intros w. by unfold stays_exhausted. Qed.

Lemma clear_input_buffer_stays_exhausted :
  ensures stays_exhausted clear_input_buffer.
Proof.
  intros w He. rewrite clear_input_buffer_cin.
  by apply ignore_line_clear_exhausted.
Qed.

Lemma get_stays_exhausted : ensures stays_exhausted (on_cin get).
Proof.
  intros w He. unfold on_cin.
  destruct (get_exhausted _ He) as (s' & -> & He'). exact He'.
Qed.

#[export] Hint Resolve put_stays_exhausted clear_input_buffer_stays_exhausted
  get_stays_exhausted : frame.

Lemma pause_screen_stays_exhausted : ensures stays_exhausted pause_screen.
Proof. unfold pause_screen. frame. Qed.

#[export] Hint Resolve pause_screen_stays_exhausted : frame.

Lemma menu_turn_exhausted fuel w :
  exhausted (cin w) ->
  exists w', menu_turn fuel w = Done BadInput w'
    /\ exhausted (cin w')
    /\ current_calibration w' = current_calibration w
    /\ fs w' = fs w.
Proof.
  intros He.
  destruct (extract_int_exhausted _ He) as (s' & Hs & He').
  assert (next_choice w = None) as Hc by (unfold next_choice; by rewrite Hs).
  destruct (menu_turn_bad_input fuel w Hc) as (w' & Hrun & Hcal & Hfs & _).
  exists w'. repeat split; try done.
  rewrite menu_turn_no_choice in Hrun by done.
  assert (ensures stays_exhausted
            (puts "\nInvalid input. Enter a number between 1 and 5.\n" ;;
             clear_input_buffer ;; pause_screen ;; ret BadInput)) as Hens
    by frame.
  specialize (Hens (after_menu w)). rewrite Hrun in Hens. apply Hens.
  unfold after_menu. simpl. by rewrite Hs.
Qed.

Lemma menu_loop_exhausted fuel turns :
  forall w, exhausted (cin w) ->
  exists w', menu_loop fuel turns w = Timeout w'
    /\ current_calibration w' = current_calibration w
    /\ fs w' = fs w.
Proof.
  induction turns as [|k IH]; intros w He.
  - by exists w.
  - destruct (menu_turn_exhausted fuel w He) as (w1 & Hrun & He1 & Hcal & Hfs).
    rewrite (menu_loop_continues _ _ _ _ _ Hrun) by done.
    destruct (IH w1 He1) as (w' & Hloop & Hcal' & Hfs').
    exists w'. split; [done|]. split; congruence.
Qed.

(* ===================================================================== *)
(** ** Values that are not finite                                         *)
(* ===================================================================== *)

(** A NaN operand gives a NaN result. *)
Lemma Prim2SF_nan x : Prim2SF x = S754_nan -> x = nan.
Proof. intros H. by apply Prim2SF_inj. Qed.

Lemma div_nan_r x : (x / nan)%float = nan.
Proof.
  apply Prim2SF_inj. rewrite div_spec.
  change (Prim2SF nan) with S754_nan. by destruct (Prim2SF x).
Qed.

Lemma div_nan_l x : (nan / x)%float = nan.
Proof.
  apply Prim2SF_inj. rewrite div_spec.
  change (Prim2SF nan) with S754_nan. reflexivity.
Qed.

Lemma mul_nan_l x : (nan * x)%float = nan.
Proof.
  apply Prim2SF_inj. rewrite mul_spec.
  change (Prim2SF nan) with S754_nan. reflexivity.
Qed.

Lemma sub_nan_r x : (x - nan)%float = nan.
Proof.
  apply Prim2SF_inj. rewrite sub_spec.
  change (Prim2SF nan) with S754_nan. by destruct (Prim2SF x).
Qed.

Lemma slope_of_nan_denom raws refs :
  Spec.denom raws refs = nan ->
  Spec.slope raws refs = nan /\ Spec.offset raws refs = nan.
Proof.
  intros Hd. assert (Spec.slope raws refs = nan) as Hs.
  { unfold Spec.slope. rewrite Hd. apply div_nan_r. }
  split; [done|]. unfold Spec.offset.
  by rewrite Hs, mul_nan_l, sub_nan_r, div_nan_l.
Qed.


(* ===================================================================== *)
(** ** What a conversion session reports                                  *)
(* ===================================================================== *)

Lemma scan_app s l1 l2 :
  scan s (l1 ++ l2)
  = ((scan (scan s l1).1 l2).1, (scan s l1).2 ++ (scan (scan s l1).1 l2).2).
Proof.
  revert s. induction l1 as [|x l1 IH]; intros s; simpl.
  - by destruct (scan s l2).
  - destruct (scan_step s x) as [s1 f1]. rewrite IH.
    destruct (scan s1 l1) as [s2 f2]. simpl.
    destruct (scan s2 l2) as [s3 f3]. simpl. by rewrite app_assoc.
Qed.

Lemma scan_snoc s l x :
  scan s (l ++ [x])
  = ((scan_step (scan s l).1 x).1, (scan s l).2 ++ (scan_step (scan s l).1 x).2).
Proof.
  rewrite scan_app. simpl. destruct (scan_step _ x) as [s1 f1]. simpl.
  by rewrite app_nil_r.
Qed.

Section Scans.

Variable w0 : World.
Variable c : Calibration.

Lemma scans_ret {A} (a : A) s : scans w0 c s (ret a) (fun a' s' => a' = a /\ s' = s).
Proof. intros w Hinv. simpl. eauto. Qed.

Lemma scans_timeout {A} s (post : A -> scan_state -> Prop) :
  scans w0 c s timeout post.
Proof. intros w Hinv. simpl. eauto. Qed.

Lemma scans_bind {A B} s (m : M A) (k : A -> M B) mid post :
  scans w0 c s m mid ->
  (forall a s1, mid a s1 -> scans w0 c s1 (k a) post) ->
  scans w0 c s (bind m k) post.
Proof.
  intros Hm Hk w Hinv. specialize (Hm w Hinv). unfold bind.
  destruct (m w) as [a w1|w1]; [|done].
  destruct Hm as (s1 & Hmid & Hinv1). by apply (Hk a s1).
Qed.

Lemma scans_weaken {A} s (m : M A) (post post' : A -> scan_state -> Prop) :
  scans w0 c s m post -> (forall a s', post a s' -> post' a s') ->
  scans w0 c s m post'.
Proof.
  intros Hm Hpost w Hinv. specialize (Hm w Hinv).
  destruct (m w) as [a w1|w1]; [|done].
  destruct Hm as (s1 & Hmid & Hinv1). eauto.
Qed.

Lemma scans_put s x :
  Forall (affine c) (scan_step s x).2 ->
  scans w0 c s (put x) (fun _ s' => s' = (scan_step s x).1).
Proof.
  intros Hx w (Hcal & out & Hout & Hs & Hall). simpl.
  exists (scan_step s x).1. split; [done|]. split; [done|].
  exists (out ++ [x]). simpl. rewrite Hout, scan_snoc, Hs. simpl.
  split; [by rewrite app_assoc|]. split; [done|].
  by apply Forall_app.
Qed.

Lemma scans_on_cin {A} s (op : istream -> A * istream) :
  scans w0 c s (on_cin op) (fun _ s' => s' = s).
Proof.
  intros w Hinv. unfold on_cin. destruct (op (cin w)) as [a s1].
  exists s. split; [done|]. exact Hinv.
Qed.

Lemma scans_get_calibration s :
  scans w0 c s get_calibration (fun a s' => a = c /\ s' = s).
Proof. intros w Hinv. simpl. exists s. by destruct Hinv. Qed.

Lemma scans_get_stack_char s :
  scans w0 c s get_stack_char (fun _ s' => s' = s).
Proof. intros w Hinv. simpl. eauto. Qed.

(** Printing a string that is not the label of a raw reading, from the
    idle state, stays idle. *)
Lemma scans_puts_idle str :
  String.eqb str "\nRaw Reading: " = false ->
  scans w0 c Idle (puts str) (fun _ s' => s' = Idle).
Proof.
  intros Hstr. eapply scans_weaken; [apply scans_put|].
  - simpl. rewrite Hstr. constructor.
  - intros _ s' ->. simpl. by rewrite Hstr.
Qed.

Lemma scans_put_idle x :
  match x with OStr _ => False | _ => True end ->
  scans w0 c Idle (put x) (fun _ s' => s' = Idle).
Proof.
  intros Hx. eapply scans_weaken; [apply scans_put|].
  - destruct x; try done; simpl; constructor.
  - intros _ s' ->. by destruct x.
Qed.

Lemma scans_clear_input_buffer s :
  scans w0 c s clear_input_buffer (fun _ s' => s' = s).
Proof. apply scans_on_cin. Qed.

Lemma scans_pause_screen :
  scans w0 c Idle pause_screen (fun _ s' => s' = Idle).
Proof.
  unfold pause_screen.
  eapply scans_bind; [by apply scans_puts_idle|]. intros _ s1 ->.
  eapply scans_bind; [apply scans_on_cin|]. intros _ s1 ->.
  eapply scans_weaken; [apply scans_ret|]. by intros _ s' [_ ->].
Qed.

Lemma scans_read_double prompt complaint fuel :
  String.eqb prompt "\nRaw Reading: " = false ->
  String.eqb complaint "\nRaw Reading: " = false ->
  scans w0 c Idle (read_double prompt complaint fuel) (fun _ s' => s' = Idle).
Proof.
  intros Hp Hc. induction fuel as [|f IH]; simpl; [apply scans_timeout|].
  eapply scans_bind; [by apply scans_puts_idle|]. intros _ s1 ->.
  eapply scans_bind; [apply scans_on_cin|]. intros [x|] s1 ->.
  - eapply scans_weaken; [apply scans_ret|]. by intros _ s' [_ ->].
  - eapply scans_bind; [by apply scans_puts_idle|]. intros _ s1 ->.
    eapply scans_bind; [apply scans_clear_input_buffer|]. by intros _ s1 ->.
Qed.

(** Follow one [cout << item] through the scanner. *)
Ltac scan_put :=
  eapply scans_bind;
    [ apply scans_put; simpl; repeat constructor
    | intros _ ? ->; simpl ].

Lemma scans_convert_loop fuel :
  forall continue_choice,
  scans w0 c Idle (convert_loop fuel continue_choice) (fun _ s' => s' = Idle).
Proof.
  induction fuel as [|f IH]; intros cc; [apply scans_timeout|].
  cbn [convert_loop].
  eapply scans_bind; [by apply scans_read_double|]. intros raw s1 ->.
  eapply scans_bind; [apply scans_clear_input_buffer|]. intros _ s1 ->.
  eapply scans_bind; [apply scans_get_calibration|]. intros c' s1 [-> ->].
  unfold puts. do 7 scan_put.
  eapply scans_bind; [apply scans_on_cin|]. intros r s1 ->.
  eapply scans_bind; [apply scans_clear_input_buffer|]. intros _ s1 ->.
  scan_put.
  destruct (_ || _); [apply IH|].
  eapply scans_weaken; [apply scans_ret|]. by intros _ s' [_ ->].
Qed.

Lemma scans_convert_raw_reading fuel :
  scans w0 c Idle (convert_raw_reading fuel) (fun _ s' => s' = Idle).
Proof.
  unfold convert_raw_reading, puts. scan_put.
  eapply scans_bind; [apply scans_get_calibration|]. intros c' s1 [-> ->].
  destruct (negb (is_valid c)).
  - do 2 scan_put.
    eapply scans_bind; [apply scans_pause_screen|]. intros _ s1 ->.
    eapply scans_weaken; [apply scans_ret|]. by intros _ s' [_ ->].
  - do 7 scan_put.
    eapply scans_bind; [apply scans_get_stack_char|]. intros cc s1 ->.
    eapply scans_bind; [apply scans_convert_loop|]. intros _ s1 ->.
    eapply scans_weaken; [apply scans_ret|]. by intros _ s' [_ ->].
Qed.

End Scans.

Lemma log_inv_start w : log_inv w (current_calibration w) Idle w.
Proof.
  split; [done|]. exists []. rewrite app_nil_r. simpl.
  repeat split. constructor.
Qed.

Lemma log_inv_reports w0 c s w :
  log_inv w0 c s w -> Forall (affine c) (reports (printed w0 w)).
Proof.
  intros (_ & out & Hout & _ & Hall). unfold printed, reports.
  by rewrite Hout, drop_app_length.
Qed.

(* ===================================================================== *)
(** ** A conversion session, reading by reading                           *)
(* ===================================================================== *)

Lemma scan_idle_strings out :
  Forall (fun x => exists s, x = OStr s
                     /\ String.eqb s "\nRaw Reading: " = false) out ->
  scan Idle out = (Idle, []).
Proof.
  induction 1 as [|x out (s & -> & Hs) _ IH]; [done|].
  simpl. rewrite Hs. by rewrite IH.
Qed.

Lemma scan_idle_app l1 l2 f1 f2 :
  scan Idle l1 = (Idle, f1) -> scan Idle l2 = (Idle, f2) ->
  scan Idle (l1 ++ l2) = (Idle, f1 ++ f2).
Proof. intros H1 H2. rewrite scan_app, H1. cbn [fst snd]. by rewrite H2. Qed.

Lemma scan_prompts out :
  Forall (fun x => x = OStr "Enter raw sensor reading: "
                   \/ x = OStr "Invalid input. Enter a number.\n") out ->
  scan Idle out = (Idle, []).
Proof.
  intros Hout. apply scan_idle_strings.
  eapply Forall_impl; [exact Hout|].
  intros x [->| ->]; eexists; split; reflexivity.
Qed.

Lemma printed_app w out :
  forall w', cout w' = cout w ++ out -> printed w w' = out.
Proof. intros w' H. unfold printed. by rewrite H, drop_app_length. Qed.

(** One statement of a straight-line run, the world kept in normal form. *)
Ltac run_step :=
  first [rewrite bind_put | rewrite bind_on_cin | rewrite bind_get_calibration];
  cbn [cin cout fs current_calibration stack_char fst snd].

(** A prompt returns the number that [prompted] describes, given budget
    for its attempts, and prints nothing but its two strings. *)
Lemma read_double_prompted p c s r s' :
  prompted s r s' ->
  forall w, cin w = s ->
  exists n out,
    Forall (fun x => x = OStr p \/ x = OStr c) out
    /\ forall fuel, (n <= fuel)%nat ->
         read_double p c fuel w
         = Done r (mkWorld (current_calibration w) s' (cout w ++ out) (fs w)
                           (stack_char w)).
Proof.
  induction 1 as [s r s' Hread|s s0 r s' Hfail _ IH]; intros w Hs.
  - exists 1%nat, [OStr p]. split; [repeat constructor|].
    intros [|fuel] Hfuel; [lia|]. cbn [read_double]. unfold puts.
    rewrite bind_put, bind_on_cin. cbn [cin]. rewrite Hs, Hread. reflexivity.
  - destruct (IH (mkWorld (current_calibration w) (ignore_line (clear s0))
                          ((cout w ++ [OStr p]) ++ [OStr c]) (fs w)
                          (stack_char w)) eq_refl)
      as (n & out & Hout & Hrun).
    exists (S n), (OStr p :: OStr c :: out).
    split; [repeat constructor; exact Hout|].
    intros [|fuel] Hfuel; [lia|]. cbn [read_double]. unfold puts.
    rewrite bind_put, bind_on_cin. cbn [cin]. rewrite Hs, Hfail.
    cbn [fst snd]. rewrite bind_put. unfold clear_input_buffer.
    rewrite bind_on_cin. cbn [cin cout fs current_calibration stack_char fst snd].
    rewrite Hrun by lia.
    cbn [cin cout fs current_calibration stack_char].
    by rewrite <- !app_assoc.
Qed.

(** The loop of [convert_raw_reading] follows [dialogue]: it ends, and what
    it prints reports the readings read, each once and in order. *)
Lemma convert_loop_dialogue cc s rs s' :
  dialogue cc s rs s' ->
  forall w, cin w = s ->
  exists n out,
    scan Idle out = (Idle, map (report (current_calibration w)) rs)
    /\ forall fuel, (n <= fuel)%nat ->
         convert_loop fuel cc w
         = Done tt (mkWorld (current_calibration w) s' (cout w ++ out) (fs w)
                            (stack_char w)).
Proof.
  induction 1 as [cc s r s1 a s2 Hread Hans Hstop
                 |cc s r s1 a s2 rs s' Hread Hans Hmore _ IH]; intros w Hs.
  - destruct (read_double_prompted "Enter raw sensor reading: "
                "Invalid input. Enter a number.\n" _ _ _ Hread w Hs)
      as (n & out & Hout & Hrun).
    exists (S n),
      (out ++ [OStr "\nRaw Reading: "; ODouble r; OStr "\n";
               OStr "Real Value:  ";
               ODouble (real_value (current_calibration w) r);
               OStr "\n\n"; OStr "Convert another reading? (y/n): ";
               OStr "\n"]).
    split.
    + apply (scan_idle_app out _ [] [_]);
        [by apply scan_prompts | reflexivity].
    + intros [|fuel] Hfuel; [lia|]. cbn [convert_loop].
      unfold bind at 1. rewrite Hrun by lia.
      unfold clear_input_buffer, puts.
      do 10 run_step. rewrite Hans. cbn [fst snd]. do 2 run_step.
      fold (again (default cc a)). rewrite Hstop.
      unfold ret. by rewrite <- !app_assoc.
  - destruct (read_double_prompted "Enter raw sensor reading: "
                "Invalid input. Enter a number.\n" _ _ _ Hread w Hs)
      as (n & out & Hout & Hrun).
    set (said := [OStr "\nRaw Reading: "; ODouble r; OStr "\n";
                  OStr "Real Value:  ";
                  ODouble (real_value (current_calibration w) r);
                  OStr "\n\n"; OStr "Convert another reading? (y/n): ";
                  OStr "\n"]).
    destruct (IH (mkWorld (current_calibration w) (ignore_line (clear s2))
                          (cout w ++ out ++ said) (fs w) (stack_char w))
                 eq_refl)
      as (n' & out' & Hout' & Hrun').
    cbn [current_calibration] in Hout'.
    exists (S (n + n')), ((out ++ said) ++ out').
    split.
    + apply (scan_idle_app (out ++ said) out' [_] _); [|exact Hout'].
      apply (scan_idle_app out said [] [_]);
        [by apply scan_prompts | reflexivity].
    + intros [|fuel] Hfuel; [lia|]. cbn [convert_loop].
      unfold bind at 1. rewrite Hrun by lia.
      unfold clear_input_buffer, puts.
      do 10 run_step. rewrite Hans. cbn [fst snd]. do 2 run_step.
      fold (again (default cc a)). rewrite Hmore.
      rewrite <- !app_assoc. cbn [app]. fold said.
      rewrite Hrun' by lia.
      cbn [cin cout fs current_calibration stack_char].
      by rewrite <- !app_assoc.
Qed.

(** The whole command on its normal path. *)
Lemma convert_raw_reading_dialogue w rs s' :
  is_valid (current_calibration w) = true ->
  dialogue (stack_char w) (cin w) rs s' ->
  exists n out,
    scan Idle out = (Idle, map (report (current_calibration w)) rs)
    /\ forall fuel, (n <= fuel)%nat ->
         convert_raw_reading fuel w
         = Done Success (mkWorld (current_calibration w) s' (cout w ++ out)
                                 (fs w) (stack_char w)).
Proof.
  intros Hv Hd.
  set (head := [OStr "\n=== CONVERT RAW READING ===\n"; OFixed;
                OSetPrecision 4; OStr "Current calibration: Slope = ";
                ODouble (slope (current_calibration w));
                OStr ", Offset = ";
                ODouble (offset (current_calibration w)); OStr "\n\n"]).
  destruct (convert_loop_dialogue _ _ _ _ Hd
              (mkWorld (current_calibration w) (cin w) (cout w ++ head)
                       (fs w) (stack_char w)) eq_refl)
    as (n & out & Hout & Hrun).
  cbn [current_calibration] in Hout.
  exists n, (head ++ out). split.
  - apply (scan_idle_app head out [] _); [reflexivity | exact Hout].
  - intros fuel Hfuel. unfold convert_raw_reading, puts.
    do 2 run_step. rewrite Hv. cbn [negb].
    do 7 run_step. unfold bind at 1, get_stack_char at 1.
    cbn [cin cout fs current_calibration stack_char].
    rewrite <- !app_assoc. cbn [app]. fold head.
    unfold bind. rewrite Hrun by exact Hfuel.
    unfold ret. cbn [cin cout fs current_calibration stack_char].
    by rewrite <- !app_assoc.
Qed.

(* ===================================================================== *)
(** ** The points, as typed                                               *)
(* ===================================================================== *)






(* ===================================================================== *)
(** ** Decimal text: printing and reading back                            *)
(* ===================================================================== *)

Lemma digit_char_spec d :
  0 <= d <= 9 ->
  isdigit (digit_char d) = true /\ digit_val (digit_char d) = d
  /\ (Ascii.eqb (digit_char d) "0" = true <-> d = 0).
Proof.
  intros Hd.
  assert (d = 0 \/ d = 1 \/ d = 2 \/ d = 3 \/ d = 4 \/ d = 5 \/ d = 6
          \/ d = 7 \/ d = 8 \/ d = 9) as Hcases by lia.
  repeat (destruct Hcases as [->|Hcases]); try subst d;
    (split; [reflexivity|]; split; [reflexivity|]; split; [done|];
     try done; try discriminate).
Qed.

Lemma digits_val_from acc ds :
  fold_left (fun a c => 10 * a + digit_val c) ds acc
  = acc * 10 ^ Z.of_nat (length ds) + digits_val ds.
Proof.
  unfold digits_val. revert acc.
  induction ds as [|c ds IH]; intros acc; simpl fold_left.
  - simpl. lia.
  - rewrite IH, (IH (10 * 0 + digit_val c)).
    rewrite length_cons, Nat2Z.inj_succ, Z.pow_succ_r by lia. lia.
Qed.

Lemma digits_val_app a b :
  digits_val (a ++ b) = digits_val a * 10 ^ Z.of_nat (length b) + digits_val b.
Proof. unfold digits_val at 1. rewrite fold_left_app. apply digits_val_from. Qed.

Lemma span_digits_all ds :
  forallb isdigit ds = true -> span_digits ds = (ds, []).
Proof.
  induction ds as [|c ds IH]; simpl; [done|].
  intros H. apply andb_true_iff in H as [-> H]. by rewrite IH.
Qed.

Lemma span_digits_stop ds c r :
  forallb isdigit ds = true -> isdigit c = false ->
  span_digits (ds ++ c :: r) = (ds, c :: r).
Proof.
  intros Hds Hc. induction ds as [|d ds IH]; simpl.
  - by rewrite Hc.
  - simpl in Hds. apply andb_true_iff in Hds as [-> Hds]. by rewrite IH.
Qed.

(** [padded_digits]: exactly [k] digits, the value taken modulo [10^k]. *)
Lemma padded_digits_spec k :
  forall n acc, 0 <= n ->
  exists ds, padded_digits k n acc = ds ++ acc
    /\ length ds = k /\ forallb isdigit ds = true
    /\ digits_val ds = n mod 10 ^ Z.of_nat k.
Proof.
  induction k as [|k IH]; intros n acc Hn.
  - exists []. simpl. repeat split. by rewrite Z.mod_1_r.
  - simpl padded_digits.
    destruct (IH (n / 10) (digit_char (n mod 10) :: acc)) as
      (ds & Heq & Hlen & Hall & Hval); [apply Z.div_pos; lia|].
    destruct (digit_char_spec (n mod 10)) as (Hd & Hv & _);
      [pose proof (Z.mod_pos_bound n 10); lia|].
    exists (ds ++ [digit_char (n mod 10)]). rewrite Heq, <- app_assoc.
    split; [done|]. split; [rewrite length_app; simpl; lia|].
    split; [rewrite forallb_app; simpl; by rewrite Hall, Hd|].
    rewrite digits_val_app.
    replace (digits_val [digit_char (n mod 10)]) with (n mod 10)
      by (unfold digits_val; simpl; lia).
    replace (Z.of_nat (length [digit_char (n mod 10)])) with 1 by reflexivity.
    replace (Z.of_nat (S k)) with (Z.succ (Z.of_nat k)) by lia.
    rewrite Hval, Z.pow_succ_r, Z.pow_1_r by lia.
    rewrite (Z.rem_mul_r n 10 (10 ^ Z.of_nat k)) by lia. lia.
Qed.

(** [digits_of]: the digits of [n], without leading zero unless [n = 0]. *)
Lemma digits_of_spec fuel :
  forall n acc, (0 < fuel)%nat -> 0 <= n < 10 ^ Z.of_nat fuel ->
  exists d ds, digits_of fuel n acc = d :: ds ++ acc
    /\ forallb isdigit (d :: ds) = true
    /\ digits_val (d :: ds) = n
    /\ (Ascii.eqb d "0" = true -> n = 0 /\ ds = []).
Proof.
  induction fuel as [|f IH]; intros n acc Hfuel Hn.
  - lia.
  - simpl digits_of.
    destruct (digit_char_spec (n mod 10)) as (Hd & Hv & Hz);
      [pose proof (Z.mod_pos_bound n 10); lia|].
    destruct (n <? 10) eqn:Hlt.
    + apply Z.ltb_lt in Hlt. rewrite Z.mod_small in * by lia.
      exists (digit_char n), []. simpl.
      split; [done|]. split; [by rewrite Hd|].
      split; [unfold digits_val; simpl; lia|].
      intros H0. split; [by apply Hz | done].
    + apply Z.ltb_ge in Hlt.
      destruct (IH (n / 10) (digit_char (n mod 10) :: acc))
        as (d & ds & Heq & Hall & Hval & Hzero).
      { destruct f; [simpl in Hn|]; lia. }
      { rewrite Nat2Z.inj_succ, Z.pow_succ_r in Hn by lia.
        split; [apply Z.div_pos; lia|].
        apply Z.div_lt_upper_bound; lia. }
      exists d, (ds ++ [digit_char (n mod 10)]).
      rewrite Heq. split; [by rewrite <- app_assoc|].
      split.
      { change (d :: ds ++ [digit_char (n mod 10)])
          with ((d :: ds) ++ [digit_char (n mod 10)]).
        rewrite forallb_app, Hall. simpl. by rewrite Hd. }
      split.
      { change (d :: ds ++ [digit_char (n mod 10)])
          with ((d :: ds) ++ [digit_char (n mod 10)]).
        rewrite digits_val_app, Hval.
        replace (digits_val [digit_char (n mod 10)]) with (n mod 10)
          by (unfold digits_val; simpl; lia).
        replace (Z.of_nat (length [digit_char (n mod 10)])) with 1
          by reflexivity.
        rewrite Z.pow_1_r. pose proof (Z.div_mod n 10). lia. }
      intros Hd0. destruct (Hzero Hd0) as [Hn0 _].
      assert (1 <= n / 10) by (apply Z.div_le_lower_bound; lia). lia.
Qed.

Lemma decimal_of_spec n :
  0 <= n ->
  exists d ds, decimal_of n = d :: ds
    /\ forallb isdigit (d :: ds) = true
    /\ digits_val (d :: ds) = n
    /\ (Ascii.eqb d "0" = true -> ds = []).
Proof.
  intros Hn. unfold decimal_of.
  destruct (digits_of_spec (S (Z.to_nat (Z.log2 n))) n [])
    as (d & ds & Heq & Hall & Hval & Hzero).
  { lia. }
  { split; [done|].
    destruct (Z.eq_dec n 0) as [->|Hne]; [simpl; lia|].
    rewrite Nat2Z.inj_succ, Z2Nat.id by apply Z.log2_nonneg.
    apply Z.lt_le_trans with (2 ^ Z.succ (Z.log2 n)).
    - apply Z.log2_spec. lia.
    - apply Z.pow_le_mono_l. lia. }
  exists d, ds. rewrite Heq, app_nil_r. repeat split; try done.
  intros H. by apply Hzero.
Qed.

Lemma round_half_even_nonneg n d : 0 <= n -> 0 < d -> 0 <= round_half_even n d.
Proof.
  intros Hn Hd. unfold round_half_even.
  assert (0 <= n / d) by (apply Z.div_pos; lia).
  destruct (2 * (n mod d) ?= d); [destruct (Z.even _)|..]; lia.
Qed.

Lemma scale_pos n d e : 0 <= n -> 0 < d -> 0 <= (scale n d e).1 /\ 0 < (scale n d e).2.
Proof.
  intros Hn Hd. unfold scale. destruct (0 <=? e) eqn:He; simpl.
  - apply Z.leb_le in He. split; [done|].
    apply Z.mul_pos_pos; [done|]. by apply Z.pow_pos_nonneg.
  - apply Z.leb_gt in He. split; [|done].
    apply Z.mul_nonneg_nonneg; [done|]. apply Z.pow_nonneg. lia.
Qed.

Lemma fixed_units_nonneg x : 0 <= fixed_units x.
Proof.
  destruct x as [| | |s m e]; simpl; try lia.
  pose proof (scale_pos (Z.pos m * 10 ^ 10) 1 (- e)) as Hs.
  destruct (scale _ _ _) as [n d]. simpl in Hs.
  apply round_half_even_nonneg; apply Hs; lia.
Qed.

(** A digit is none of the other characters of a numeral. *)
Lemma isdigit_not_punct c :
  isdigit c = true ->
  Ascii.eqb c "+" = false /\ Ascii.eqb c "-" = false
  /\ Ascii.eqb c "." = false.
Proof.
  intros Hc. repeat split.
  all: match goal with |- Ascii.eqb _ ?x = false =>
         destruct (Ascii.eqb_spec c x) as [->|]; [discriminate|done] end.
Qed.

Lemma float_chars_digits ds :
  forallb isdigit ds = true ->
  forall mant dec sci tail,
  float_chars mant dec sci (ds ++ tail)
  = let '(x, r) := float_chars (mant || negb (is_nil ds)) dec sci tail in
    (ds ++ x, r).
Proof.
  induction ds as [|d ds IH]; intros Hall mant dec sci tail.
  - simpl. rewrite orb_false_r. by destruct (float_chars _ _ _ _).
  - simpl in Hall. apply andb_true_iff in Hall as [Hd Hall].
    simpl. rewrite Hd, (IH Hall), orb_true_r. simpl.
    by destruct (float_chars _ _ _ _).
Qed.

Lemma float_chars_fraction mant fp rest :
  forallb isdigit fp = true ->
  float_chars mant false false ("."%char :: fp ++ nl :: rest)
  = ("."%char :: fp, nl :: rest).
Proof.
  intros Hfp. simpl. rewrite (float_chars_digits fp Hfp).
  simpl. by rewrite app_nil_r.
Qed.

(** The text that [fixed] prints for a finite value, followed by a
    newline, is read back whole; [strtod] sees the same digits. *)
Lemma accumulate_float_fixed (neg : bool) d ds fp rest :
  forallb isdigit (d :: ds) = true ->
  (Ascii.eqb d "0" = true -> ds = []) ->
  forallb isdigit fp = true ->
  let sgn := if neg then ["-"%char] else [] in
  accumulate_float (sgn ++ d :: ds ++ "."%char :: fp ++ nl :: rest)
  = (sgn ++ d :: ds ++ "."%char :: fp, nl :: rest).
Proof.
  intros Hip Hzero Hfp sgn. simpl in Hip.
  apply andb_true_iff in Hip as [Hd Hds].
  destruct (isdigit_not_punct d Hd) as (Hplus & Hminus & _).
  assert (accumulate_float (sgn ++ d :: ds ++ "."%char :: fp ++ nl :: rest)
          = let '(z, l2) := leading_zeros false
                              (d :: ds ++ "."%char :: fp ++ nl :: rest) in
            let '(x, l3) := float_chars z false false l2 in
            (sgn ++ (if z then ["0"%char] else []) ++ x, l3)) as ->.
  { subst sgn. destruct neg; unfold accumulate_float; simpl app at 1.
    - reflexivity.
    - cbv iota beta. by rewrite Hplus, Hminus. }
  destruct (Ascii.eqb d "0") eqn:Hd0.
  - rewrite (Hzero eq_refl). apply Ascii.eqb_eq in Hd0 as ->.
    simpl leading_zeros. simpl app at 1. cbv beta iota.
    rewrite float_chars_fraction by done. reflexivity.
  - simpl leading_zeros. rewrite Hd0. cbv beta iota.
    change (d :: ds ++ "."%char :: fp ++ nl :: rest)
      with ((d :: ds) ++ "."%char :: fp ++ nl :: rest).
    rewrite float_chars_digits by (simpl; by rewrite Hd, Hds).
    rewrite float_chars_fraction by done. simpl. reflexivity.
Qed.

Lemma strtod_fixed (neg : bool) ip fp :
  forallb isdigit ip = true -> ip <> [] ->
  forallb isdigit fp = true ->
  let sgn := if neg then ["-"%char] else [] in
  strtod (sgn ++ ip ++ "."%char :: fp)
  = Some (decimal_to_binary64 neg (digits_val (ip ++ fp))
            (- Z.of_nat (length fp))).
Proof.
  intros Hip Hne Hfp sgn. unfold strtod.
  assert (take_sign (sgn ++ ip ++ "."%char :: fp)
          = (neg, ip ++ "."%char :: fp)) as ->.
  { subst sgn. destruct neg; [reflexivity|].
    destruct ip as [|d ip]; [done|]. simpl in Hip.
    apply andb_true_iff in Hip as [Hd _].
    destruct (isdigit_not_punct d Hd) as (Hplus & Hminus & _).
    simpl. by rewrite Hminus, Hplus. }
  rewrite (span_digits_stop ip "." fp Hip eq_refl).
  rewrite Ascii.eqb_refl, (span_digits_all fp Hfp).
  destruct ip; [done|]. reflexivity.
Qed.

Lemma format_fixed_finite x :
  match x with S754_zero _ | S754_finite _ _ _ => True | _ => False end ->
  exists d ds fp,
    format_fixed 10 x
    = (if sign_of x then ["-"%char] else []) ++ d :: ds ++ "."%char :: fp
    /\ forallb isdigit (d :: ds) = true
    /\ (Ascii.eqb d "0" = true -> ds = [])
    /\ forallb isdigit fp = true /\ length fp = 10%nat
    /\ digits_val ((d :: ds) ++ fp) = fixed_units x.
Proof.
  intros Hx. pose proof (fixed_units_nonneg x) as HN.
  set (N := fixed_units x) in *.
  assert (format_fixed 10 x
          = (if sign_of x then ["-"%char] else [])
              ++ decimal_of (N / 10 ^ 10) ++ ["."%char]
              ++ padded_digits 10 (N mod 10 ^ 10) []) as ->.
  { subst N. destruct x as [s|s| |s m e]; try done.
    unfold format_fixed, fixed_units.
    change (Z.of_nat 10) with 10.
    by destruct (scale (Z.pos m * 10 ^ 10) 1 (- e)). }
  destruct (decimal_of_spec (N / 10 ^ 10)) as (d & ds & -> & Hip & Hval & Hz);
    [apply Z.div_pos; lia|].
  destruct (padded_digits_spec 10 (N mod 10 ^ 10) []) as
    (fp & -> & Hlen & Hfp & Hfv); [apply Z.mod_pos_bound; lia|].
  exists d, ds, fp. rewrite app_nil_r.
  split; [reflexivity|]. repeat split; try done.
  rewrite digits_val_app, Hval, Hfv, Hlen.
  change (Z.of_nat 10) with 10.
  rewrite Z.mod_mod by lia. pose proof (Z.div_mod N (10 ^ 10)). lia.
Qed.

Lemma sentry_at_numeral (neg : bool) d l :
  isdigit d = true ->
  let text := (if neg then ["-"%char] else []) ++ d :: l in
  sentry true (open text) = (true, open text).
Proof.
  intros Hd text. unfold sentry, open. simpl good. cbv iota. simpl buf.
  assert (skipws text = text) as ->.
  { subst text. destruct neg; simpl; [reflexivity|].
    assert (isspace d = false) as ->; [|done].
    unfold isspace, isdigit in *. lia. }
  subst text. by destruct neg.
Qed.

Lemma extract_double_fixed x rest :
  match x with S754_zero _ | S754_finite _ _ _ => True | _ => False end ->
  extract_double (open (format_fixed 10 x ++ nl :: rest))
  = match nearest_binary64 (sign_of x) (fixed_units x) (10 ^ 10) with
    | S754_infinity _ => (None, mkIn (nl :: rest) false true)
    | v => (Some (SF2Prim v), open (nl :: rest))
    end.
Proof.
  intros Hx.
  destruct (format_fixed_finite x Hx)
    as (d & ds & fp & Htext & Hip & Hz & Hfp & Hlen & Hval).
  set (sgn := if sign_of x then ["-"%char] else []) in *.
  assert (format_fixed 10 x ++ nl :: rest
          = sgn ++ d :: ds ++ "."%char :: fp ++ nl :: rest) as ->.
  { rewrite Htext, <- app_assoc. simpl. by rewrite <- app_assoc. }
  unfold extract_double.
  assert (isdigit d = true) as Hd.
  { simpl in Hip. by apply andb_true_iff in Hip as [? _]. }
  subst sgn. rewrite (sentry_at_numeral (sign_of x) d _ Hd). simpl buf.
  rewrite (accumulate_float_fixed (sign_of x) d ds fp rest Hip Hz Hfp).
  change (d :: ds ++ "."%char :: fp) with ((d :: ds) ++ "."%char :: fp).
  rewrite (strtod_fixed (sign_of x) (d :: ds) fp Hip ltac:(done) Hfp).
  rewrite Hval, Hlen. change (- Z.of_nat 10) with (-10).
  unfold decimal_to_binary64. change (0 <=? -10) with false. cbv iota.
  change (- -10) with 10.
  by destruct (nearest_binary64 _ _ _).
Qed.

(* ===================================================================== *)
(** ** Rounding to the nearest integer and to the nearest double          *)
(* ===================================================================== *)

Lemma round_half_even_cases n d :
  0 <= n -> 0 < d ->
  let r := round_half_even n d in
  (r = n / d /\ 2 * (n mod d) <= d) \/ (r = n / d + 1 /\ d <= 2 * (n mod d)).
Proof.
  intros Hn Hd. unfold round_half_even.
  destruct (Z.compare_spec (2 * (n mod d)) d) as [Heq|Hlt|Hgt].
  - destruct (Z.even (n / d)); [left|right]; lia.
  - left. lia.
  - right. lia.
Qed.

(** No integer is nearer to [n/d] than [round_half_even n d]. *)
Lemma round_half_even_nearest n d k :
  0 <= n -> 0 < d ->
  Z.abs (round_half_even n d * d - n) <= Z.abs (k * d - n).
Proof.
  intros Hn Hd.
  pose proof (Z.div_mod n d ltac:(lia)) as Hdm.
  pose proof (Z.mod_pos_bound n d Hd) as Hr.
  destruct (round_half_even_cases n d Hn Hd) as [[-> Hh]|[-> Hh]].
  - destruct (Z.le_gt_cases k (n / d)); nia.
  - destruct (Z.le_gt_cases k (n / d)); nia.
Qed.

Lemma round_half_even_half n d :
  0 <= n -> 0 < d -> 2 * Z.abs (round_half_even n d * d - n) <= d.
Proof.
  intros Hn Hd.
  pose proof (Z.div_mod n d ltac:(lia)) as Hdm.
  pose proof (Z.mod_pos_bound n d Hd) as Hr.
  destruct (round_half_even_cases n d Hn Hd) as [[-> Hh]|[-> Hh]]; nia.
Qed.

Lemma round_half_even_exact n : 0 <= n -> round_half_even n 1 = n.
Proof.
  intros Hn. unfold round_half_even.
  rewrite Z.mod_1_r, Z.div_1_r. reflexivity.
Qed.

(** Both parts of [scale n d e], brought to the common unit [2^-K]. *)
Lemma scale_units n d e K :
  0 <= K -> - K <= e ->
  exists c, 0 < c
    /\ (scale n d e).1 * c = n * 2 ^ K
    /\ (scale n d e).2 * c = d * 2 ^ (e + K).
Proof.
  intros HK He. unfold scale. destruct (0 <=? e) eqn:Hpos; simpl.
  - apply Z.leb_le in Hpos. exists (2 ^ K).
    split; [by apply Z.pow_pos_nonneg|]. split; [done|].
    rewrite Z.pow_add_r by lia. lia.
  - apply Z.leb_gt in Hpos. exists (2 ^ (e + K)).
    split; [apply Z.pow_pos_nonneg; lia|]. split; [|done].
    rewrite <- Z.mul_assoc, <- Z.pow_add_r by lia. f_equal. f_equal. lia.
Qed.

Lemma round_scale_nearest n d e K k :
  0 <= n -> 0 < d -> 0 <= K -> - K <= e ->
  let r := round_half_even (scale n d e).1 (scale n d e).2 in
  Z.abs (r * (d * 2 ^ (e + K)) - n * 2 ^ K)
  <= Z.abs (k * (d * 2 ^ (e + K)) - n * 2 ^ K).
Proof.
  intros Hn Hd HK He r.
  destruct (scale_units n d e K HK He) as (c & Hc & Hn' & Hd').
  destruct (scale_pos n d e Hn Hd) as [Hn0 Hd0].
  pose proof (round_half_even_nearest _ _ k Hn0 Hd0) as Hnear. fold r in Hnear.
  rewrite <- Hn', <- Hd'.
  replace (r * ((scale n d e).2 * c) - (scale n d e).1 * c)
    with ((r * (scale n d e).2 - (scale n d e).1) * c) by ring.
  replace (k * ((scale n d e).2 * c) - (scale n d e).1 * c)
    with ((k * (scale n d e).2 - (scale n d e).1) * c) by ring.
  rewrite !Z.abs_mul, (Z.abs_eq c) by lia.
  apply Z.mul_le_mono_nonneg_r; lia.
Qed.

Lemma round_scale_half n d e K :
  0 <= n -> 0 < d -> 0 <= K -> - K <= e ->
  let r := round_half_even (scale n d e).1 (scale n d e).2 in
  2 * Z.abs (r * (d * 2 ^ (e + K)) - n * 2 ^ K) <= d * 2 ^ (e + K).
Proof.
  intros Hn Hd HK He r.
  destruct (scale_units n d e K HK He) as (c & Hc & Hn' & Hd').
  destruct (scale_pos n d e Hn Hd) as [Hn0 Hd0].
  pose proof (round_half_even_half _ _ Hn0 Hd0) as Hhalf. fold r in Hhalf.
  rewrite <- Hn', <- Hd'.
  replace (r * ((scale n d e).2 * c) - (scale n d e).1 * c)
    with ((r * (scale n d e).2 - (scale n d e).1) * c) by ring.
  rewrite Z.abs_mul, (Z.abs_eq c) by lia. nia.
Qed.

(** Comparing the two parts of [scale n d e] compares [n/d] with [2^e]. *)
Lemma scale_compare n d e K :
  0 <= K -> - K <= e ->
  ((scale n d e).2 <= (scale n d e).1 <-> d * 2 ^ (e + K) <= n * 2 ^ K).
Proof.
  intros HK He.
  destruct (scale_units n d e K HK He) as (c & Hc & Hn' & Hd').
  rewrite <- Hn', <- Hd'. split; intros H; nia.
Qed.

(** The number of binary digits of a mantissa. *)
Lemma digits2_pos_spec m :
  2 ^ (Z.pos (digits2_pos m) - 1) <= Z.pos m < 2 ^ Z.pos (digits2_pos m).
Proof.
  induction m as [m IH|m IH|]; simpl digits2_pos.
  - rewrite Pos2Z.inj_succ.
    replace (Z.succ (Z.pos (digits2_pos m)) - 1)
      with (Z.succ (Z.pos (digits2_pos m) - 1)) by lia.
    rewrite !Z.pow_succ_r by lia. lia.
  - rewrite Pos2Z.inj_succ.
    replace (Z.succ (Z.pos (digits2_pos m)) - 1)
      with (Z.succ (Z.pos (digits2_pos m) - 1)) by lia.
    rewrite !Z.pow_succ_r by lia. lia.
  - simpl. lia.
Qed.

(** What [valid_binary] says about a finite binary64 value. *)
Lemma valid_binary_bounds s m e :
  valid_binary (S754_finite s m e) = true ->
  Z.pos m < 2 ^ 53 /\ -1074 <= e <= 971.
Proof.
  unfold valid_binary, bounded, canonical_mantissa, fexp, SpecFloat.emin.
  change prec with 53. change emax with 1024.
  intros H. apply andb_true_iff in H as [Hc He].
  apply Z.eqb_eq in Hc. apply Z.leb_le in He.
  pose proof (digits2_pos_spec m) as [_ Hm].
  split; [|lia].
  apply Z.lt_le_trans with (2 ^ Z.pos (digits2_pos m)); [done|].
  apply Z.pow_le_mono_r; lia.
Qed.

Lemma valid_binary_intro s m e :
  0 < m < 2 ^ 53 -> -1074 <= e <= 971 -> (2 ^ 52 <= m \/ e = -1074) ->
  valid_binary (S754_finite s (Z.to_pos m) e) = true.
Proof.
  intros Hm He Hnorm.
  unfold valid_binary, bounded, canonical_mantissa, fexp, SpecFloat.emin.
  change prec with 53. change emax with 1024.
  apply andb_true_iff. split; [|apply Z.leb_le; lia].
  apply Z.eqb_eq.
  pose proof (digits2_pos_spec (Z.to_pos m)) as [Hlo Hhi].
  rewrite Z2Pos.id in Hlo, Hhi by lia.
  set (dg := Z.pos (digits2_pos (Z.to_pos m))) in *.
  assert (dg <= 53) as Hdg.
  { destruct (Z.le_gt_cases dg 53) as [|Hgt]; [done|].
    assert (2 ^ 53 <= 2 ^ (dg - 1)) by (apply Z.pow_le_mono_r; lia). lia. }
  destruct Hnorm as [Hnorm| ->]; [|lia].
  assert (53 <= dg); [|lia].
  destruct (Z.le_gt_cases 53 dg) as [|Hlt]; [done|].
  assert (2 ^ dg <= 2 ^ 52) by (apply Z.pow_le_mono_r; lia). lia.
Qed.

(** [ilog2 N (10^10)] is the binary order of magnitude of [N / 10^10]. *)
Lemma ilog2_bounds N :
  1 <= N ->
  let l := ilog2 N (10 ^ 10) in
  -34 <= l
  /\ 10 ^ 10 * 2 ^ (l + 1074) <= N * 2 ^ 1074
  /\ N * 2 ^ 1074 < 10 ^ 10 * 2 ^ (l + 1 + 1074).
Proof.
  intros HN. unfold ilog2.
  change (Z.log2 (10 ^ 10)) with 33.
  set (p := Z.log2 N). set (D := 10 ^ 10).
  assert (0 <= p) as Hp by apply Z.log2_nonneg.
  destruct (Z.log2_spec N ltac:(lia)) as [HNlo HNhi]. fold p in HNlo, HNhi.
  assert (2 ^ 33 <= D < 2 ^ 34) as [HDlo HDhi] by (subst D; lia).
  pose proof (scale_compare N D (p - 33) 1074 ltac:(lia) ltac:(lia)) as Hcmp.
  rewrite (surjective_pairing (scale N D (p - 33))).
  set (T := 2 ^ 1074) in *.
  set (A0 := 2 ^ (p - 33 - 1 + 1074)).
  assert (0 < A0) as HA0 by (apply Z.pow_pos_nonneg; lia).
  assert (0 < T) as HT by (apply Z.pow_pos_nonneg; lia).
  assert (2 ^ (p - 33 + 1074) = 2 * A0) as Hx1.
  { subst A0. rewrite <- Z.pow_succ_r by lia. f_equal. lia. }
  assert (2 ^ (p - 33 + 1 + 1074) = 4 * A0) as Hx2.
  { replace (p - 33 + 1 + 1074) with (Z.succ (p - 33 + 1074)) by lia.
    rewrite Z.pow_succ_r, Hx1 by lia. lia. }
  assert (2 ^ 34 * A0 = 2 ^ p * T) as Hx3.
  { subst A0 T. rewrite <- !Z.pow_add_r by lia. f_equal. lia. }
  assert (2 ^ (p + 1) = 2 * 2 ^ p) as Hx4.
  { replace (p + 1) with (Z.succ p) by lia. by rewrite Z.pow_succ_r. }
  rewrite Hx1 in Hcmp.
  destruct (Z.leb_spec (scale N D (p - 33)).2 (scale N D (p - 33)).1)
    as [Hle|Hgt].
  - apply Hcmp in Hle. rewrite Hx1, Hx2.
    split; [lia|]. split; [lia|]. nia.
  - assert (N * T < D * (2 * A0)) as Hlt.
    { destruct (Z.le_gt_cases (D * (2 * A0)) (N * T)) as [H|H]; [|done].
      apply Hcmp in H. lia. }
    replace (p - 33 - 1 + 1 + 1074) with (p - 33 + 1074) by lia.
    fold A0. rewrite Hx1. split; [lia|]. split; [nia|lia].
Qed.

(** The result of [nearest_binary64] for [N / 10^10], in units of
    [2^-1074]: a mantissa [M] and an exponent [E] such that no binary64
    magnitude is nearer to [N / 10^10] than [M * 2^E]. *)
Lemma nearest_binary64_spec s N :
  1 <= N ->
  N * 2 ^ 1074 <= 10 ^ 10 * ((2 ^ 53 - 1) * 2 ^ 2045) ->
  exists M E,
    0 <= M < 2 ^ 53 /\ 0 <= E <= 2045 /\ (2 ^ 52 <= M \/ E = 0)
    /\ nearest_binary64 s N (10 ^ 10)
       = (if M =? 0 then S754_zero s
          else S754_finite s (Z.to_pos M) (E - 1074))
    /\ forall mx ex, 0 <= mx < 2 ^ 53 -> 0 <= ex ->
         Z.abs (M * 2 ^ E * 10 ^ 10 - N * 2 ^ 1074)
         <= Z.abs (mx * 2 ^ ex * 10 ^ 10 - N * 2 ^ 1074).
Proof.
  intros HN Hmax.
  destruct (ilog2_bounds N HN) as (Hl & Hlo & Hup).
  set (l := ilog2 N (10 ^ 10)) in *.
  set (ed := Z.max (l - 52) exp_min).
  assert (-1074 <= ed) as Hed by (subst ed; unfold exp_min; lia).
  set (md := round_half_even (scale N (10 ^ 10) ed).1 (scale N (10 ^ 10) ed).2).
  assert (forall k, Z.abs (md * (10 ^ 10 * 2 ^ (ed + 1074)) - N * 2 ^ 1074)
                    <= Z.abs (k * (10 ^ 10 * 2 ^ (ed + 1074)) - N * 2 ^ 1074))
    as Hnear.
  { intros k. apply round_scale_nearest; lia. }
  assert (0 <= md) as Hmd0.
  { destruct (scale_pos N (10 ^ 10) ed) as [? ?]; [lia..|].
    by apply round_half_even_nonneg. }
  set (D := 10 ^ 10) in *. assert (0 < D) as HD by (subst D; lia).
  set (T := 2 ^ 1074) in *.
  set (G := 2 ^ (ed + 1074)) in *.
  assert (0 < G) as HG by (apply Z.pow_pos_nonneg; lia).
  (* the mantissa before renormalisation *)
  assert (md <= 2 ^ 53 /\ (2 ^ 52 <= md \/ ed = -1074)
          /\ (-1074 < ed -> D * (2 ^ 52 * G) <= N * T)) as (Hmd1 & Hmd2 & Hnorm).
  { destruct (Z.le_gt_cases (-1074) (l - 52)) as [Hn|Hs].
    - assert (ed = l - 52) as Hede by (subst ed; unfold exp_min; lia).
      assert (2 ^ (l + 1074) = 2 ^ 52 * G) as Hx1.
      { subst G. rewrite <- Z.pow_add_r by lia. f_equal. lia. }
      assert (2 ^ (l + 1 + 1074) = 2 ^ 53 * G) as Hx2.
      { subst G. rewrite <- Z.pow_add_r by lia. f_equal. lia. }
      rewrite Hx1 in Hlo. rewrite Hx2 in Hup.
      pose proof (Hnear (2 ^ 52)) as H52. pose proof (Hnear (2 ^ 53)) as H53.
      split; [nia|]. split; [left; nia|]. intros _. lia.
    - assert (ed = -1074) as Hede by (subst ed; unfold exp_min; lia).
      assert (G = 1) as HG1 by (subst G; by rewrite Hede).
      assert (2 ^ (l + 1 + 1074) <= 2 ^ 52) as Hx
        by (apply Z.pow_le_mono_r; lia).
      pose proof (Hnear (2 ^ 52)) as H52.
      split; [nia|]. split; [by right|]. lia. }
  (* no overflow *)
  assert (ed <= 971 /\ (ed = 971 -> md < 2 ^ 53)) as [Hed1 Hed2].
  { assert (ed <= 971) as Hle.
    { destruct (Z.le_gt_cases ed 971) as [|Hgt]; [done|].
      specialize (Hnorm ltac:(lia)).
      assert (2 ^ 2046 <= G) as HGbig.
      { subst G. apply Z.pow_le_mono_r; lia. }
      assert (2 ^ 2046 = 2 * 2 ^ 2045) as Hp by (by rewrite <- Z.pow_succ_r).
      nia. }
    split; [done|]. intros Heq.
    assert (G = 2 ^ 2045) as HG1 by (subst G; by rewrite Heq).
    pose proof (Hnear (2 ^ 53 - 1)) as Hk. nia. }
  (* the value is that of a double *)
  assert (forall mx ex, 0 <= mx < 2 ^ 53 -> 0 <= ex ->
            Z.abs (md * G * D - N * T) <= Z.abs (mx * 2 ^ ex * D - N * T))
    as Hbest.
  { intros mx ex Hmx Hex.
    destruct (Z.le_gt_cases (ed + 1074) ex) as [Hge|Hlt].
    - specialize (Hnear (mx * 2 ^ (ex - (ed + 1074)))).
      assert (2 ^ ex = 2 ^ (ex - (ed + 1074)) * G) as ->.
      { subst G. rewrite <- Z.pow_add_r by lia. f_equal. lia. }
      replace (md * G * D) with (md * (D * G)) by ring.
      replace (mx * (2 ^ (ex - (ed + 1074)) * G) * D)
        with (mx * 2 ^ (ex - (ed + 1074)) * (D * G)) by ring.
      exact Hnear.
    - specialize (Hnorm ltac:(lia)).
      assert (2 * 2 ^ ex <= G) as Hpow.
      { subst G. rewrite <- Z.pow_succ_r by lia.
        apply Z.pow_le_mono_r; lia. }
      assert (0 < 2 ^ ex) by (apply Z.pow_pos_nonneg; lia).
      pose proof (Hnear (2 ^ 52)) as H52.
      assert (mx * 2 ^ ex * D <= D * (2 ^ 52 * G)) by nia.
      replace (md * G * D) with (md * (D * G)) by ring.
      replace (2 ^ 52 * (D * G)) with (D * (2 ^ 52 * G)) in H52 by ring.
      lia. }
  (* renormalisation *)
  destruct (Z.eqb_spec md (2 ^ 53)) as [Hr|Hr].
  - exists (2 ^ 52), (ed + 1 + 1074).
    assert (2 ^ (ed + 1 + 1074) = 2 * G) as HGs.
    { subst G. replace (ed + 1 + 1074) with (Z.succ (ed + 1074)) by lia.
      by rewrite Z.pow_succ_r by lia. }
    assert (ed < 971) by (destruct (Z.eq_dec ed 971); [|lia]; specialize (Hed2 ltac:(done)); lia).
    split; [lia|]. split; [lia|]. split; [left; lia|]. split.
    + unfold nearest_binary64.
      destruct (Z.eqb_spec N 0); [lia|].
      change (Z.max (ilog2 N D - 52) exp_min) with ed.
      rewrite (surjective_pairing (scale N D ed)). fold md.
      rewrite Hr. rewrite Z.eqb_refl.
      change (2 ^ 52 =? 0) with false. cbv iota.
      destruct (Z.ltb_spec exp_max (ed + 1)) as [Hov|_];
        [unfold exp_max in Hov; lia|].
      f_equal. lia.
    + intros mx ex Hmx Hex. rewrite HGs.
      replace (2 ^ 52 * (2 * G) * D) with (md * G * D)
        by (rewrite Hr; change (2 ^ 53) with (2 * 2 ^ 52); ring).
      by apply Hbest.
  - exists md, (ed + 1074).
    split; [lia|]. split; [lia|]. split; [lia|]. split.
    + unfold nearest_binary64.
      destruct (Z.eqb_spec N 0); [lia|].
      change (Z.max (ilog2 N D - 52) exp_min) with ed.
      rewrite (surjective_pairing (scale N D ed)). fold md.
      destruct (Z.eqb_spec md (2 ^ 53)); [done|].
      destruct (Z.eqb_spec md 0); [done|].
      destruct (Z.ltb_spec exp_max ed) as [Hov|_];
        [unfold exp_max in Hov; lia|].
      f_equal. lia.
    + exact Hbest.
Qed.

(* ===================================================================== *)
(** ** A saved number, read back                                          *)
(* ===================================================================== *)

Section Reload.

Variables (s : bool) (m : positive) (e : Z).
Hypothesis Hm : Z.pos m < 2 ^ 53.
Hypothesis He : -1074 <= e <= 971.

Let x := S754_finite s m e.
Let N := fixed_units x.

Lemma fixed_units_finite :
  N = round_half_even (scale (Z.pos m * 10 ^ 10) 1 (- e)).1
                      (scale (Z.pos m * 10 ^ 10) 1 (- e)).2.
Proof.
  subst N x. unfold fixed_units. by destruct (scale _ _ _).
Qed.

(** What is printed is within half a unit of the tenth decimal. *)
Lemma fixed_units_half :
  2 * Z.abs (N * 2 ^ 1074 - Z.pos m * 2 ^ (e + 1074) * 10 ^ 10) <= 2 ^ 1074.
Proof.
  pose proof (round_scale_half (Z.pos m * 10 ^ 10) 1 (- e) (1074 + e)
                ltac:(lia) ltac:(lia) ltac:(lia) ltac:(lia)) as H.
  cbv zeta in H. rewrite <- fixed_units_finite in H.
  replace (- e + (1074 + e)) with 1074 in H by lia.
  replace (1074 + e) with (e + 1074) in H by lia.
  rewrite !Z.mul_1_l in H.
  replace (Z.pos m * 2 ^ (e + 1074) * 10 ^ 10)
    with (Z.pos m * 10 ^ 10 * 2 ^ (e + 1074)) by ring.
  exact H.
Qed.

(** An integer is printed exactly. *)
Lemma fixed_units_exact :
  0 <= e -> N * 2 ^ 1074 = Z.pos m * 2 ^ (e + 1074) * 10 ^ 10.
Proof.
  intros Hpos.
  pose proof (round_scale_nearest (Z.pos m * 10 ^ 10) 1 (- e) (1074 + e)
                (Z.pos m * 10 ^ 10 * 2 ^ e)
                ltac:(lia) ltac:(lia) ltac:(lia) ltac:(lia)) as H.
  cbv zeta in H. rewrite <- fixed_units_finite in H.
  replace (- e + (1074 + e)) with 1074 in H by lia.
  replace (1074 + e) with (e + 1074) in H by lia.
  rewrite !Z.mul_1_l in H.
  assert (2 ^ (e + 1074) = 2 ^ e * 2 ^ 1074) as Hpow
    by (rewrite Z.pow_add_r; lia).
  rewrite Hpow in *.
  replace (Z.pos m * 10 ^ 10 * 2 ^ e * 2 ^ 1074
           - Z.pos m * 10 ^ 10 * (2 ^ e * 2 ^ 1074)) with 0 in H by ring.
  simpl Z.abs at 2 in H. lia.
Qed.

Lemma fixed_units_max :
  N * 2 ^ 1074 <= 10 ^ 10 * ((2 ^ 53 - 1) * 2 ^ 2045).
Proof.
  destruct (Z.le_gt_cases 0 e) as [Hpos|Hneg].
  - rewrite fixed_units_exact by done.
    assert (2 ^ (e + 1074) <= 2 ^ 2045) by (apply Z.pow_le_mono_r; lia).
    assert (0 < 2 ^ (e + 1074)) by (apply Z.pow_pos_nonneg; lia).
    nia.
  - pose proof fixed_units_half as Hhalf.
    assert (2 ^ (e + 1074) <= 2 ^ 1073) by (apply Z.pow_le_mono_r; lia).
    assert (0 < 2 ^ (e + 1074)) by (apply Z.pow_pos_nonneg; lia).
    assert (2 ^ 1074 = 2 * 2 ^ 1073) as Hp by (by rewrite <- Z.pow_succ_r).
    assert (2 ^ 2045 = 2 ^ 972 * 2 ^ 1073) as Hq
      by (by rewrite <- Z.pow_add_r).
    assert (0 < 2 ^ 1073) by (by apply Z.pow_pos_nonneg).
    rewrite Hp in *. rewrite Hq. clear Hp Hq.
    set (A := 2 ^ 1073) in *. set (B := 2 ^ (e + 1074)) in *.
    assert (2 <= 2 ^ 972) by (change 2 with (2 ^ 1) at 1; apply Z.pow_le_mono_r; lia).
    set (C := 2 ^ 972) in *.
    assert (Z.pos m * B * 10 ^ 10 <= (2 ^ 53 - 1) * A * 10 ^ 10) by nia.
    nia.
Qed.

(** Reading the printed number back gives a double within one unit of
    the tenth decimal of [x]. *)
Lemma reload_finite :
  let v := nearest_binary64 s N (10 ^ 10) in
  valid_binary v = true
  /\ match v with S754_zero _ | S754_finite _ _ _ => True | _ => False end
  /\ 10 ^ 10 * Z.abs (units v - units x) <= 2 ^ 1074.
Proof.
  pose proof fixed_units_half as Hhalf.
  pose proof (fixed_units_nonneg x) as HN0. fold N in HN0.
  assert (0 < 2 ^ (e + 1074)) as HB by (apply Z.pow_pos_nonneg; lia).
  assert (forall a : Z, Z.abs ((if s then -1 else 1) * a
                               - (if s then -1 else 1)
                                 * (Z.pos m * 2 ^ (e + 1074)))
                        = Z.abs (a - Z.pos m * 2 ^ (e + 1074))) as Hsign.
  { intros a. destruct s; lia. }
  destruct (Z.eq_dec N 0) as [Hz|Hnz].
  - cbv zeta. unfold nearest_binary64. rewrite Hz. simpl (0 =? 0). cbv iota.
    split; [done|]. split; [done|]. simpl units.
    rewrite Hz in Hhalf. destruct s; nia.
  - destruct (nearest_binary64_spec s N ltac:(lia) fixed_units_max)
      as (M & E & HM & HE & Hnorm & -> & Hbest).
    specialize (Hbest (Z.pos m) (e + 1074) ltac:(lia) ltac:(lia)).
    cbv zeta. destruct (Z.eqb_spec M 0) as [HM0|HM0].
    + split; [done|]. split; [done|]. simpl units.
      rewrite HM0 in Hbest. simpl in Hbest. destruct s; nia.
    + split; [apply valid_binary_intro; lia|]. split; [done|].
      simpl units. rewrite Z2Pos.id by lia.
      replace (E - 1074 + 1074) with E by lia. rewrite Hsign.
      replace (M * 2 ^ E * 10 ^ 10 - N * 2 ^ 1074)
        with ((M * 2 ^ E - Z.pos m * 2 ^ (e + 1074)) * 10 ^ 10
              - (N * 2 ^ 1074 - Z.pos m * 2 ^ (e + 1074) * 10 ^ 10))
        in Hbest by ring.
      set (U := M * 2 ^ E) in *. set (X := Z.pos m * 2 ^ (e + 1074)) in *.
      set (T := 2 ^ 1074) in *. lia.
Qed.

End Reload.

Lemma Qabs_common_den (a b : Z) (P c : positive) :
  Z.pos c * Z.abs (a - b) <= Z.pos P ->
  (Qabs ((a # P) - (b # P)) <= 1 # c)%Q.
Proof.
  intros H. unfold Qminus, Qplus, Qopp, Qabs, Qle. simpl Qnum. simpl Qden.
  rewrite Pos2Z.inj_mul.
  replace (a * Z.pos P + - b * Z.pos P) with ((a - b) * Z.pos P) by ring.
  rewrite Z.abs_mul, (Z.abs_eq (Z.pos P)) by lia. nia.
Qed.

Lemma unit_den_pow : Z.pos unit_den = 2 ^ 1074.
Proof. unfold unit_den. apply Z2Pos.id. by apply Z.pow_pos_nonneg. Qed.

Lemma finite_cases x :
  finite x = true ->
  match Prim2SF x with S754_zero _ | S754_finite _ _ _ => True | _ => False end.
Proof. unfold finite. by destruct (Prim2SF x). Qed.

(** The number that [fixed] with 10 decimals prints for a finite double is
    read back, up to its newline, as a finite double within [10^-10]. *)
Lemma reload_double x rest :
  finite x = true ->
  exists y,
    extract_double (open (format_fixed 10 (Prim2SF x) ++ nl :: rest))
    = (Some y, open (nl :: rest))
    /\ finite y = true
    /\ (Qabs (value y - value x) <= tenth_decimal)%Q.
Proof.
  intros Hfin. pose proof (finite_cases x Hfin) as Hx.
  pose proof (Prim2SF_valid x) as Hvalid.
  rewrite (extract_double_fixed _ rest Hx). unfold value.
  assert (let v := nearest_binary64 (sign_of (Prim2SF x))
                     (fixed_units (Prim2SF x)) (10 ^ 10) in
          valid_binary v = true
          /\ match v with S754_zero _ | S754_finite _ _ _ => True | _ => False end
          /\ 10 ^ 10 * Z.abs (units v - units (Prim2SF x)) <= 2 ^ 1074)
    as (Hv & Hshape & Hnear).
  { destruct (Prim2SF x) as [s|s| |s m e]; try done.
    destruct (valid_binary_bounds s m e Hvalid) as [Hm He].
    apply (reload_finite s m e Hm He). }
  set (v := nearest_binary64 _ _ _) in *.
  exists (SF2Prim v).
  assert (Prim2SF (SF2Prim v) = v) as Hback by (by apply Prim2SF_SF2Prim).
  split; [by destruct v|].
  split; [unfold finite; rewrite Hback; by destruct v|].
  rewrite Hback. apply Qabs_common_den. rewrite unit_den_pow. exact Hnear.
Qed.



(* ===================================================================== *)
(** ** Numbers with at most ten decimals                                  *)
(* ===================================================================== *)



Section ReloadExact.

Variables (s : bool) (m : positive) (e : Z).
Hypothesis Hvalid : valid_binary (S754_finite s m e) = true.
Hypothesis Hdecimals :
  (Z.pos m * 2 ^ (e + 1074) * 10 ^ 10) mod 2 ^ 1074 = 0.

Let x := S754_finite s m e.
Let N := fixed_units x.



End ReloadExact.




(* ===================================================================== *)
(** ** Claims                                                             *)
(* ===================================================================== *)

(** C10.  The conversion session never modifies the calibration store:
    whatever is typed (any number of readings, any answers), and whether
    the session ends or is still waiting for input when the budget runs
    out, slope, offset and validity are what they were before it. *)
Theorem convert_leaves_store_unchanged (fuel : nat) (w : World) :
  current_calibration (final_world (convert_raw_reading fuel w))
  = current_calibration w.
Proof. apply convert_raw_reading_keeps_calibration. Qed.

(* ===================================================================== *)
(** ** Further properties of the commands                                 *)
(* ===================================================================== *)

(** X1.  When [enter_calibration_data] has read [n >= 2] points and the
    denominator [n*sum_x2 - sum_x^2] of their single-pass sums has absolute
    value at least [1e-10], it returns normally and the store holds exactly
    [slope = (n*sum_xy - sum_x*sum_y) / denom],
    [offset = (sum_y - slope*sum_x) / n], marked valid, with [n] the
    floating count of the points. *)
Theorem regression_stores_the_fit fuel w n refs raws w1 :
  read_points fuel w = Done (n, (refs, raws)) w1 ->
  (1e-10 <=? abs (Spec.denom raws refs))%float = true ->
  (2 <= n /\ Z.of_nat (length raws) = n /\ length refs = length raws)
  /\ exists w2,
       enter_calibration_data fuel w = Done Success w2
       /\ current_calibration w2
          = mkCal (Spec.slope raws refs) (Spec.offset raws refs) true.
Proof.
  intros Hread Hden.
  destruct (read_points_done _ _ _ _ _ _ Hread) as (Hn & Hrefs & Hraws).
  split; [repeat split; [done | lia | congruence]|].
  apply leb_not_ltb in Hden.
  destruct (fit_and_store_fits n refs raws w1) as (w2 & Hrun & Hcal & _);
    try done; [lia|].
  exists w2. split; [|done].
  unfold enter_calibration_data. by rewrite (bind_run _ _ _ _ _ Hread).
Qed.

Lemma regression_stores_the_fit_witness :
  exists w2,
    enter_calibration_data 3 (typing ["2"; "0"; "0"; "20"; "10"; ""])
      = Done Success w2
    /\ current_calibration w2 = mkCal 2 0 true.
Proof.
  eapply (regression_stores_the_fit 3
            (typing ["2"; "0"; "0"; "20"; "10"; ""]) 2
            [0; 20]%float [0; 10]%float).
  - vm_compute. reflexivity.
  - vm_compute. reflexivity.
Defined.

(** X2.  When the points read have a denominator of absolute
    value below [1e-10], [enter_calibration_data] reports the error and
    returns on the degenerate-input path, and slope, offset and validity
    are what they were before. *)
Theorem degenerate_input_leaves_store fuel w n refs raws w1 :
  read_points fuel w = Done (n, (refs, raws)) w1 ->
  (abs (Spec.denom raws refs) <? 1e-10)%float = true ->
  exists w2,
    enter_calibration_data fuel w = Done (Failure DegenerateInputError) w2
    /\ current_calibration w2 = current_calibration w
    /\ OStr "\nError: All raw readings are identical. Cannot compute calibration.\n"
         ∈ cout w2.
Proof.
  intros Hread Hden.
  destruct (read_points_done _ _ _ _ _ _ Hread) as (Hn & Hrefs & Hraws).
  destruct (fit_and_store_degenerate n refs raws w1)
    as (w2 & Hrun & Hcal & _ & Hmsg); try done; [lia|].
  exists w2. repeat split; [|  |done].
  - unfold enter_calibration_data. by rewrite (bind_run _ _ _ _ _ Hread).
  - rewrite Hcal. pose proof (read_points_keeps_calibration fuel w) as Hk.
    by rewrite Hread in Hk.
Qed.

Lemma degenerate_input_leaves_store_witness :
  exists w2,
    enter_calibration_data 3 (typing ["2"; "1"; "7"; "2"; "7"; ""])
      = Done (Failure DegenerateInputError) w2
    /\ current_calibration w2 = initial_calibration
    /\ OStr "\nError: All raw readings are identical. Cannot compute calibration.\n"
         ∈ cout w2.
Proof.
  eapply (degenerate_input_leaves_store 3
            (typing ["2"; "1"; "7"; "2"; "7"; ""]) 2
            [1; 2]%float [7; 7]%float).
  - vm_compute. reflexivity.
  - vm_compute. reflexivity.
Defined.

(** The guard is an absolute threshold on rounded sums: three points
    whose raw readings are all [1000.1] pass it (the rounded sums give a denominator of about
    [-1.9e-9]); the command returns normally and the store is
    overwritten. *)
Lemma identical_readings_pass_the_guard :
  let w := typing ["3"; "1"; "1000.1"; "2"; "1000.1"; "3"; "1000.1"; ""] in
  exists w1 w2,
    read_points 3 w
      = Done (3, ([1; 2; 3], [1000.1; 1000.1; 1000.1])%float) w1
    /\ enter_calibration_data 3 w = Done Success w2
    /\ is_valid (current_calibration w2) = true
    /\ current_calibration w2 <> current_calibration w.
Proof.
  eexists _, _. split; [vm_compute; reflexivity|].
  split; [vm_compute; reflexivity|].
  split; [reflexivity|]. simpl. discriminate.
Qed.


(** X3.  When the prompts of [enter_calibration_data] return, the count
    entered is an [int] of at least 2, both vectors hold exactly that many
    values, and the store has not been touched yet. *)
Theorem points_read_are_complete fuel w n refs raws w' :
  read_points fuel w = Done (n, (refs, raws)) w' ->
  2 <= n <= INT_MAX
  /\ length refs = Z.to_nat n /\ length raws = Z.to_nat n
  /\ current_calibration w' = current_calibration w.
Proof.
  intros Hread.
  destruct (read_points_done _ _ _ _ _ _ Hread) as (_ & Hrefs & Hraws).
  pose proof (read_points_keeps_calibration fuel w) as Hkeep.
  rewrite Hread in Hkeep. repeat split; try done.
  all: unfold read_points in Hread.
  all: apply bind_done in Hread as (_ & w1 & _ & Hread).
  all: apply bind_done in Hread as (n' & w2 & Hn & Hread).
  all: apply bind_done in Hread as (_ & w3 & _ & Hread).
  all: apply bind_done in Hread as (vs & w4 & _ & Hread).
  all: injection Hread as -> _ _.
  all: apply read_num_points_range in Hn; lia.
Qed.

Lemma points_read_are_complete_witness :
  exists w',
    read_points 4 (typing ["x"; "1"; "3"; "1 4"; "2 5"; "oops"; "3"; "6"])
    = Done (3, ([1; 2; 3], [4; 5; 6])%float) w'
    /\ 2 <= 3 <= INT_MAX
    /\ length [1; 2; 3]%float = Z.to_nat 3
    /\ length [4; 5; 6]%float = Z.to_nat 3
    /\ current_calibration w' = initial_calibration.
Proof.
  eexists. split; [vm_compute; reflexivity|].
  eapply (points_read_are_complete 4
            (typing ["x"; "1"; "3"; "1 4"; "2 5"; "oops"; "3"; "6"])).
  vm_compute. reflexivity.
Defined.

(** X4.  [load_calibration_from_file] fails on one of three paths: the
    file named on the next input line cannot be opened, no number can be
    read at its start, or no second number can be read.  On each it
    reports the error, and neither the store nor any file is changed. *)
Theorem load_failures_leave_store w :
  (open_read (fs w) (next_line w) = None ->
   exists w', load_calibration_from_file w = Done (Failure FileOpenError) w'
     /\ current_calibration w' = current_calibration w /\ fs w' = fs w
     /\ OStr "\nError: Cannot open file '" ∈ cout w')
  /\ (forall text file,
      open_read (fs w) (next_line w) = Some text ->
      extract_double (open text) = (None, file) ->
      exists w', load_calibration_from_file w
                 = Done (Failure (ParseError "slope")) w'
        /\ current_calibration w' = current_calibration w /\ fs w' = fs w
        /\ OStr "\nError: Cannot read slope from file.\n" ∈ cout w')
  /\ (forall text s file file',
      open_read (fs w) (next_line w) = Some text ->
      extract_double (open text) = (Some s, file) ->
      extract_double file = (None, file') ->
      exists w', load_calibration_from_file w
                 = Done (Failure (ParseError "offset")) w'
        /\ current_calibration w' = current_calibration w /\ fs w' = fs w
        /\ OStr "\nError: Cannot read offset from file.\n" ∈ cout w').
Proof.
  split; [apply load_cannot_open|].
  split; [apply load_cannot_read_slope | apply load_cannot_read_offset].
Qed.

Lemma load_failures_leave_store_witness :
  exists w',
    load_calibration_from_file
      (with_file "cal.txt" ["1.5"; "volts"] (typing ["cal.txt"; ""]))
    = Done (Failure (ParseError "offset")) w'
    /\ current_calibration w' = initial_calibration
    /\ fs w' = write_file no_files "cal.txt" (lines ["1.5"; "volts"])
    /\ OStr "\nError: Cannot read offset from file.\n" ∈ cout w'.
Proof.
  eapply (proj2 (proj2 (load_failures_leave_store
            (with_file "cal.txt" ["1.5"; "volts"] (typing ["cal.txt"; ""]))))).
  - vm_compute. reflexivity.
  - vm_compute. reflexivity.
  - vm_compute. reflexivity.
Defined.

(** X5.  When the file opens and two numbers are read from its start,
    [load_calibration_from_file] returns normally and the store is exactly
    those two numbers, marked valid; the files are not changed. *)
Theorem load_replaces_store_wholesale w c :
  loaded w = Some c ->
  exists w', load_calibration_from_file w = Done Success w'
    /\ current_calibration w' = c
    /\ is_valid c = true
    /\ fs w' = fs w.
Proof.
  intros Hl. pose proof (loaded_valid _ _ Hl) as Hv.
  unfold loaded in Hl.
  destruct (open_read (fs w) (next_line w)) as [text|] eqn:Hopen;
    [|discriminate].
  destruct (extract_double (open text)) as [[s|] file] eqn:Hs; [|discriminate].
  destruct (extract_double file) as [[o|] file'] eqn:Ho; [|discriminate].
  injection Hl as <-.
  destruct (load_replaces_store w _ _ _ _ _ Hopen Hs Ho)
    as (w' & Hrun & Hcal & Hfs).
  by exists w'.
Qed.

Lemma load_replaces_store_wholesale_witness :
  exists w',
    load_calibration_from_file
      (with_file "cal.txt" ["1.5"; "3.0"] (typing ["cal.txt"; ""]))
    = Done Success w'
    /\ current_calibration w' = mkCal 1.5 3 true
    /\ is_valid (mkCal 1.5 3 true) = true
    /\ fs w' = write_file no_files "cal.txt" (lines ["1.5"; "3.0"]).
Proof.
  eapply (load_replaces_store_wholesale
            (with_file "cal.txt" ["1.5"; "3.0"] (typing ["cal.txt"; ""]))).
  vm_compute. reflexivity.
Defined.





(** X8.  With a valid store and a path that cannot be created (the empty
    path among them), [save_calibration_to_file] reports the error and
    returns; no file and nothing in the store is changed. *)
Theorem save_reports_unwritable_path w :
  is_valid (current_calibration w) = true ->
  can_create (fs w) (next_line w) = false ->
  exists w', save_calibration_to_file w = Done (Failure FileWriteError) w'
    /\ current_calibration w' = current_calibration w
    /\ fs w' = fs w
    /\ OStr "\nError: Cannot create file '" ∈ cout w'.
Proof. apply save_cannot_create. Qed.

Lemma save_reports_unwritable_path_witness :
  let w := with_calibration (mkCal 2 0 true) (typing [""; ""]) in
  exists w', save_calibration_to_file w = Done (Failure FileWriteError) w'
    /\ current_calibration w' = mkCal 2 0 true
    /\ fs w' = no_files
    /\ OStr "\nError: Cannot create file '" ∈ cout w'.
Proof.
  apply (save_reports_unwritable_path
           (with_calibration (mkCal 2 0 true) (typing [""; ""])));
    vm_compute; reflexivity.
Defined.

(** X9.  A turn of the menu changes the files only when it is a
    successful command 4, and then only by writing the saved text to the
    path it was given; every other turn, finished or not, leaves the files
    as they were. *)
Theorem only_save_changes_files fuel w :
  fs (final_world (menu_turn fuel w)) = fs w
  \/ exists w', menu_turn fuel w = Done (Ran 4 Success) w'
       /\ fs w' = write_file (fs w) (next_line (at_switch w))
                    (saved_text (current_calibration w)).
Proof.
  pose proof (menu_turn_files fuel w) as H.
  destruct (menu_turn fuel w) as [t w'|w']; [|by left].
  destruct t as [|n|n o|code]; try by left.
  destruct (choice_cases n) as [->|[->|[->|[->|[->|Hout]]]]];
    try by left.
  - destruct o; [right; eauto | by left].
  - left. simpl.
    destruct n as [|p|p]; try done.
    destruct p as [[q|q|]|[q|q|]|]; try done; try lia; destruct q; done || lia.
Qed.

(** X10.  When what is typed at the menu is not an [int], or is an [int]
    outside 1..5, the turn prints its complaint and ends back at the menu:
    the store and the files are as before and the loop goes on with the
    next turn. *)
Theorem bad_menu_input_is_recoverable fuel w :
  (next_choice w = None ->
   exists w', menu_turn fuel w = Done BadInput w'
     /\ current_calibration w' = current_calibration w /\ fs w' = fs w
     /\ OStr "\nInvalid input. Enter a number between 1 and 5.\n" ∈ cout w'
     /\ forall turns,
          menu_loop fuel (S turns) w = menu_loop fuel turns w')
  /\ (forall n, next_choice w = Some n -> n < 1 \/ 5 < n ->
      exists w', menu_turn fuel w = Done (BadOption n) w'
        /\ current_calibration w' = current_calibration w /\ fs w' = fs w
        /\ OStr "\nInvalid option. Choose between 1 and 5.\n" ∈ cout w'
        /\ forall turns,
             menu_loop fuel (S turns) w = menu_loop fuel turns w').
Proof.
  split.
  - intros Hc.
    destruct (menu_turn_bad_input fuel w Hc) as (w' & Hrun & Hcal & Hfs & Hmsg).
    exists w'. repeat split; try done.
    intros turns. by apply (menu_loop_continues _ _ _ _ _ Hrun).
  - intros n Hc Hn.
    destruct (menu_turn_bad_option fuel w n Hc Hn)
      as (w' & Hrun & Hcal & Hfs & Hmsg).
    exists w'. repeat split; try done.
    intros turns. by apply (menu_loop_continues _ _ _ _ _ Hrun).
Qed.

Lemma bad_menu_input_is_recoverable_witness :
  (exists w', menu_turn 1 (typing ["abc"; ""]) = Done BadInput w'
     /\ current_calibration w' = initial_calibration /\ fs w' = no_files
     /\ OStr "\nInvalid input. Enter a number between 1 and 5.\n" ∈ cout w'
     /\ forall turns,
          menu_loop 1 (S turns) (typing ["abc"; ""]) = menu_loop 1 turns w')
  /\ (exists w', menu_turn 1 (typing ["9"; ""]) = Done (BadOption 9) w'
        /\ current_calibration w' = initial_calibration /\ fs w' = no_files
        /\ OStr "\nInvalid option. Choose between 1 and 5.\n" ∈ cout w'
        /\ forall turns,
             menu_loop 1 (S turns) (typing ["9"; ""]) = menu_loop 1 turns w').
Proof.
  split.
  - apply (proj1 (bad_menu_input_is_recoverable 1 (typing ["abc"; ""]))).
    vm_compute. reflexivity.
  - apply (proj2 (bad_menu_input_is_recoverable 1 (typing ["9"; ""])) 9).
    + vm_compute. reflexivity.
    + right. reflexivity.
Defined.



(** X12.  A turn of the menu changes the store in one way only: a
    successful command 1 or 2 replaces it by the whole record that command
    computed (the fit of the points read, or the two numbers of the file),
    marked valid.  Every other turn, and every turn that is still waiting
    for input when the budget runs out, leaves slope, offset and validity
    as they were. *)
Theorem turn_writes_store_whole_or_not_at_all fuel w :
  match menu_turn fuel w with
  | Done t w' =>
      (t = Ran 1 Success
       /\ fitted fuel (at_switch w) = Some (current_calibration w')
       /\ is_valid (current_calibration w') = true)
      \/ (t = Ran 2 Success
          /\ loaded (at_switch w) = Some (current_calibration w')
          /\ is_valid (current_calibration w') = true)
      \/ (sets_calibration t = false
          /\ current_calibration w' = current_calibration w)
  | Timeout w' => current_calibration w' = current_calibration w
  end.
Proof.
  pose proof (menu_turn_effect fuel w) as H.
  destruct (menu_turn fuel w) as [t w'|w']; [|done].
  destruct (sets_calibration t) eqn:Ht.
  - destruct H as [[-> Hf]|[-> Hl]].
    + left. repeat split; try done. by apply fitted_valid in Hf.
    + right. left. repeat split; try done. by apply loaded_valid in Hl.
  - right. right. done.
Qed.

(** X13.  From the start of the program on, at every return to the menu
    the store is valid exactly when one of the turns so far was a
    successful command 1 or 2; until then it is the record the global was
    constructed with. *)
Theorem valid_iff_fitted_or_loaded input files junk ts w :
  session (start input files junk) ts w ->
  is_valid (current_calibration w) = existsb sets_calibration ts
  /\ (existsb sets_calibration ts = false ->
      current_calibration w = initial_calibration).
Proof.
  intros Hs. split.
  - rewrite (session_validity _ _ _ Hs). simpl. by rewrite orb_false_r.
  - intros Hnone. by rewrite (session_store_kept _ _ _ Hs Hnone).
Qed.

Lemma valid_iff_fitted_or_loaded_witness :
  exists w,
    session (start (lines ["3"; ""; "9"; ""; "1"; "2"; "0"; "0"; "20"; "10"; ""])
                   no_files "n")
            [Ran 3 (Failure NotCalibratedError); BadOption 9; Ran 1 Success] w
    /\ is_valid (current_calibration w) = true.
Proof.
  assert (exists w,
    session (start (lines ["3"; ""; "9"; ""; "1"; "2"; "0"; "0"; "20"; "10"; ""])
                   no_files "n")
            [Ran 3 (Failure NotCalibratedError); BadOption 9; Ran 1 Success] w)
    as [w Hs].
  { eexists.
    eapply (session_turn _ 3); [vm_compute; reflexivity | reflexivity |].
    eapply (session_turn _ 3); [vm_compute; reflexivity | reflexivity |].
    eapply (session_turn _ 3); [vm_compute; reflexivity | reflexivity |].
    apply session_nil. }
  exists w. split; [exact Hs|].
  exact (proj1 (valid_iff_fitted_or_loaded _ _ _ _ _ Hs)).
Defined.

(** X14.  Validity is never taken back: from a state with a valid store,
    every later return to the menu finds it valid, and no turn in between
    ended on the not-calibrated path of command 3 or 4. *)
Theorem calibration_stays_valid w ts w' :
  session w ts w' ->
  is_valid (current_calibration w) = true ->
  is_valid (current_calibration w') = true
  /\ forall t c, t ∈ ts ->
       t <> Ran c (Failure NotCalibratedError)
       /\ t <> Ran c (Failure NoCalibrationError).
Proof.
  induction 1 as [w|w fuel t w1 ts w2 Hrun Hexit Hsession IH]; intros Hv.
  - split; [done|]. intros t c Hin. by apply elem_of_nil in Hin.
  - assert (is_valid (current_calibration w1) = true) as Hv1.
    { rewrite (menu_turn_validity _ _ _ _ Hrun), Hv. apply orb_true_r. }
    destruct (IH Hv1) as [Hv2 Hts]. split; [done|].
    intros t' c Hin. apply elem_of_cons in Hin as [Heq|Hin]; [|by apply Hts].
    subst t'. by apply (menu_turn_calibrated fuel w t w1).
Qed.

Lemma calibration_stays_valid_witness :
  exists w',
    session (with_calibration (mkCal 2 0 true) (typing ["3"; "5"; "n"; "7"; ""]))
            [Ran 3 Success; BadOption 7] w'
    /\ is_valid (current_calibration w') = true.
Proof.
  assert (exists w',
    session (with_calibration (mkCal 2 0 true) (typing ["3"; "5"; "n"; "7"; ""]))
            [Ran 3 Success; BadOption 7] w') as [w' Hs].
  { eexists.
    eapply (session_turn _ 3); [vm_compute; reflexivity | reflexivity |].
    eapply (session_turn _ 3); [vm_compute; reflexivity | reflexivity |].
    apply session_nil. }
  exists w'. split; [exact Hs|].
  exact (proj1 (calibration_stays_valid _ _ _ Hs eq_refl)).
Defined.

(** X15.  Once the input is used up the program never ends: every
    [cin >> choice] fails, so for every budget [main] is still in the menu
    loop, with the store and the files as they were. *)
Theorem main_spins_at_end_of_input fuel w :
  exhausted (cin w) ->
  exists w', main fuel w = Timeout w'
    /\ current_calibration w' = current_calibration w
    /\ fs w' = fs w.
Proof.
  intros He. unfold main. rewrite (bind_run _ _ _ _ _ (banner_run w)).
  set (w1 := mkWorld _ _ _ _ _).
  destruct (menu_loop_exhausted fuel fuel w1 He) as (w' & Hrun & Hcal & Hfs).
  by exists w'.
Qed.

Lemma main_spins_at_end_of_input_witness :
  exists w', main 7 (typing []) = Timeout w'
    /\ current_calibration w' = initial_calibration
    /\ fs w' = no_files.
Proof. apply (main_spins_at_end_of_input 7 (typing [])). reflexivity. Defined.

(** X16.  A prompt for a number gives up on no input that is left: each
    failed attempt discards at least one character, so if the loop has not
    returned within more attempts than there are characters waiting, the
    input is used up and it will not return under any budget. *)
Theorem prompt_spins_only_at_end_of_input prompt complaint fuel w w' :
  (length (buf (cin w)) < fuel)%nat ->
  read_double prompt complaint fuel w = Timeout w' ->
  exhausted (cin w')
  /\ forall fuel', exists w'', read_double prompt complaint fuel' w = Timeout w''.
Proof. intros Hlen. apply read_double_spins. by left. Qed.

Lemma prompt_spins_only_at_end_of_input_witness :
  exists w',
    read_double "Enter raw sensor reading: " "Invalid input. Enter a number.\n"
      9 (typing ["abc"; "-"]) = Timeout w'
    /\ exhausted (cin w')
    /\ forall fuel', exists w'',
         read_double "Enter raw sensor reading: "
           "Invalid input. Enter a number.\n" fuel' (typing ["abc"; "-"])
         = Timeout w''.
Proof.
  eexists. split; [vm_compute; reflexivity|].
  eapply (prompt_spins_only_at_end_of_input _ _ 9 (typing ["abc"; "-"])).
  - vm_compute. lia.
  - vm_compute. reflexivity.
Defined.

(** X17.  [clear_input_buffer] discards the input up to and including the
    next newline and leaves [cin] good, whatever its flags were; when no
    newline is left it discards everything.  Nothing else changes. *)
Theorem clear_input_buffer_discards_line w :
  (forall l1 l2, buf (cin w) = l1 ++ nl :: l2 -> nl ∉ l1 ->
   clear_input_buffer w
   = Done tt (mkWorld (current_calibration w) (open l2) (cout w) (fs w)
                      (stack_char w)))
  /\ (nl ∉ buf (cin w) ->
      clear_input_buffer w
      = Done tt (mkWorld (current_calibration w) (mkIn [] true false) (cout w)
                         (fs w) (stack_char w))).
Proof.
  split.
  - intros l1 l2 Hb Hnl. unfold clear_input_buffer, on_cin.
    unfold ignore_line, clear, sentry. simpl.
    by rewrite Hb, drop_line_app.
  - intros Hnl. unfold clear_input_buffer, on_cin.
    unfold ignore_line, clear, sentry. simpl.
    by rewrite drop_line_none.
Qed.

Lemma clear_input_buffer_discards_line_witness :
  clear_input_buffer (typing ["3 and more"; "next"])
  = Done tt (mkWorld initial_calibration (open (lines ["next"])) [] no_files "n").
Proof.
  apply (proj1 (clear_input_buffer_discards_line
                  (typing ["3 and more"; "next"]))
           (list_ascii_of_string "3 and more") (lines ["next"])).
  - reflexivity.
  - vm_compute. intros H. repeat (apply elem_of_cons in H as [H|H]; [discriminate|]).
    by apply elem_of_nil in H.
Defined.

(** X18.  The guard of the regression does not catch a NaN denominator
    ([fabs(NaN) < 1e-10] is false): the command returns normally and
    stores NaN as slope and as offset, marked valid. *)
Theorem nan_denominator_is_stored fuel w n refs raws w1 :
  read_points fuel w = Done (n, (refs, raws)) w1 ->
  Spec.denom raws refs = nan ->
  exists w2,
    enter_calibration_data fuel w = Done Success w2
    /\ current_calibration w2 = mkCal nan nan true.
Proof.
  intros Hread Hden.
  destruct (read_points_done _ _ _ _ _ _ Hread) as (Hn & Hrefs & Hraws).
  destruct (fit_and_store_fits n refs raws w1) as (w2 & Hrun & Hcal & _);
    try done; [lia | by rewrite Hden |].
  exists w2. split.
  - unfold enter_calibration_data. by rewrite (bind_run _ _ _ _ _ Hread).
  - destruct (slope_of_nan_denom raws refs Hden) as [Hs Ho].
    by rewrite Hcal, Hs, Ho.
Qed.

Lemma nan_denominator_is_stored_witness :
  exists w2,
    enter_calibration_data 3 (typing ["2"; "0"; "1e200"; "0"; "0"; ""])
    = Done Success w2
    /\ current_calibration w2 = mkCal nan nan true.
Proof.
  eapply (nan_denominator_is_stored 3
            (typing ["2"; "0"; "1e200"; "0"; "0"; ""]) 2
            [0; 0]%float [1e200; 0]%float).
  - vm_compute. reflexivity.
  - vm_compute. reflexivity.
Defined.



(** X20.  Every pair (raw reading, real value) that a conversion session
    prints satisfies [real = slope * raw + offset] for the slope and
    offset of the store the session started with, however many readings
    are converted and whatever else is typed. *)
Theorem conversion_reports_affine_values fuel w r v :
  (r, v) ∈ reports (printed w (final_world (convert_raw_reading fuel w))) ->
  v = (slope (current_calibration w) * r + offset (current_calibration w))%float.
Proof.
  intros Hin.
  pose proof (scans_convert_raw_reading w (current_calibration w) fuel w
                (log_inv_start w)) as Hscan.
  assert (exists s, log_inv w (current_calibration w) s
                      (final_world (convert_raw_reading fuel w))) as [s Hinv].
  { destruct (convert_raw_reading fuel w) as [o w'|w']; simpl.
    - destruct Hscan as (s & _ & Hinv). eauto.
    - exact Hscan. }
  apply log_inv_reports in Hinv.
  rewrite Forall_forall in Hinv. exact (Hinv _ Hin).
Qed.

Lemma conversion_reports_affine_values_witness :
  let w := with_calibration (mkCal 2 0 true) (typing ["x"; "5"; "n"]) in
  reports (printed w (final_world (convert_raw_reading 3 w))) = [(5, 10)%float]
  /\ (10 = 2 * 5 + 0)%float.
Proof.
  split; [vm_compute; reflexivity|].
  apply (conversion_reports_affine_values 3
           (with_calibration (mkCal 2 0 true) (typing ["x"; "5"; "n"]))).
  vm_compute. constructor.
Defined.

(** X21.  What [file << fixed << setprecision(10) << x] prints for a finite
    double [x] is read back by [file >> y]: the extraction succeeds, stops
    in front of the newline that follows the number with the stream still
    good, and gives a finite double that differs from [x] by at most
    [10^-10]. *)
Theorem saved_number_reads_back x rest :
  finite x = true ->
  exists y,
    extract_double (open (format_fixed 10 (Prim2SF x) ++ nl :: rest))
    = (Some y, open (nl :: rest))
    /\ finite y = true
    /\ (Qabs (value y - value x) <= tenth_decimal)%Q.
Proof. apply reload_double. Qed.

Lemma saved_number_reads_back_witness :
  exists y,
    extract_double (open (format_fixed 10 (Prim2SF 0.1) ++ nl :: []))
    = (Some y, open [nl])
    /\ finite y = true
    /\ (Qabs (value y - value 0.1) <= tenth_decimal)%Q.
Proof.
  apply (saved_number_reads_back 0.1 []). vm_compute. reflexivity.
Defined.



(** X23.  On its normal path [convert_raw_reading] reports every number it
    reads, once and in the order read.  With a valid store, when the input
    holds one conversion dialogue (for each reading: attempts that give no
    number, each discarding the rest of its line, then a number and the
    rest of its line; after each reading an answer that leaves
    [continue_choice] at [y] or [Y] when another reading follows, and at
    anything else at the end), then given budget for these steps the
    command returns normally, has consumed exactly the dialogue, and the
    pairs it has printed are [(r, slope * r + offset)] for the readings [r]
    of the dialogue, in order; the store and the files are as before. *)
Theorem conversion_reports_each_reading w rs s' :
  is_valid (current_calibration w) = true ->
  dialogue (stack_char w) (cin w) rs s' ->
  exists n, forall fuel, (n <= fuel)%nat ->
    exists w',
      convert_raw_reading fuel w = Done Success w'
      /\ reports (printed w w') = map (report (current_calibration w)) rs
      /\ cin w' = s'
      /\ current_calibration w' = current_calibration w
      /\ fs w' = fs w.
Proof.
  intros Hv Hd.
  destruct (convert_raw_reading_dialogue w rs s' Hv Hd)
    as (n & out & Hout & Hrun).
  exists n. intros fuel Hfuel. eexists. split; [exact (Hrun fuel Hfuel)|].
  split; [|done].
  unfold reports. rewrite (printed_app w out) by reflexivity.
  by rewrite Hout.
Qed.

Lemma conversion_reports_each_reading_witness :
  let w := with_calibration (mkCal 2 0 true)
             (typing ["x"; "5"; "y"; "7"; "n"]) in
  exists s' n, forall fuel, (n <= fuel)%nat ->
    exists w',
      convert_raw_reading fuel w = Done Success w'
      /\ reports (printed w w') = map (report (mkCal 2 0 true)) [5; 7]%float
      /\ cin w' = s'
      /\ current_calibration w' = mkCal 2 0 true
      /\ fs w' = no_files.
Proof.
  cbv zeta. eexists.
  eapply (conversion_reports_each_reading
            (with_calibration (mkCal 2 0 true)
               (typing ["x"; "5"; "y"; "7"; "n"]))
            [5; 7]%float _ eq_refl).
  eapply dialogue_more.
  - eapply prompted_retry; [vm_compute; reflexivity|].
    apply prompted_now. vm_compute. reflexivity.
  - vm_compute. reflexivity.
  - vm_compute. reflexivity.
  - eapply dialogue_last.
    + apply prompted_now. vm_compute. reflexivity.
    + vm_compute. reflexivity.
    + vm_compute. reflexivity.
Defined.




